(** * Buddy allocator: a shallow embedding and its properties

    The allocator manages one arena of [2^MAX_ORDER] bytes cut into pages of
    [2^MIN_ORDER] bytes.  Its state is the table of page records [g_pages]
    and the array of free lists [free_area], one list per order.  Addresses
    are byte offsets from the arena base [g_memory]; the C [NULL] is [None].

    Every place where the C code would read or write outside an array, or
    touch a list head that [INIT_LIST_HEAD] never initialised, is a fault of
    the model: the operation yields [None] and no state. *)

From Stdlib Require Import ZArith Lia.
From Equations.Prop Require Import Equations Logic.
From stdpp Require Import base list numbers option strings pretty.
Local Open Scope Z_scope.

(** ** Configuration constants *)

Definition MIN_ORDER : Z := 12.
Definition MAX_ORDER : Z := 20.
Definition MEMORY_AREA : Z := Z.shiftl 1 MAX_ORDER.
Definition PAGE_SIZE : Z := Z.shiftl 1 MIN_ORDER.
Definition PAGE_NUM : Z := MEMORY_AREA / PAGE_SIZE.

(** ** Machine integers *)

(** [unsigned long] of an LP64 target. *)
Definition ulong (z : Z) : Z := z mod 2 ^ 64.

(** Conversion to a 32-bit [int]. *)
Definition to_int (z : Z) : Z := (z + 2 ^ 31) mod 2 ^ 32 - 2 ^ 31.

(** ** Address arithmetic (the three macros) *)

Definition PAGE_TO_ADDR (page_idx : Z) : Z := page_idx * PAGE_SIZE.

Definition ADDR_TO_PAGE (addr : Z) : Z := ulong addr / PAGE_SIZE.

Definition BUDDY_ADDR (addr o : Z) : Z := Z.lxor (ulong addr) (Z.shiftl 1 o).

(** ** Data model *)

(** A page record.  The intrusive [list] member is represented by the
    membership of the page's index in one of the lists of [free_area]. *)
Record page_t : Type := mk_page {
  block_size : Z;
  page_index : Z;
  block_address : Z
}.

(** [free_area] has [MAX_ORDER + 1] heads; a head holds the indices of the
    pages linked on it, first element first.  Heads below [MIN_ORDER] are
    never initialised and stay as they are. *)
Record state : Type := mk_state {
  free_area : list (list Z);
  g_pages : list page_t
}.

(** Trace of the list operations an operation performs. *)
Inductive event : Type :=
| Take (page order : Z)      (* buddy_alloc unlinks the block it found *)
| SplitOff (page order : Z)  (* split links an upper half *)
| Merge (page order : Z)     (* buddy_free unlinks the buddy it found *)
| Release (page order : Z).  (* buddy_free links the released block *)

#[global] Instance page_t_eq_dec : EqDecision page_t.
Proof. solve_decision. Defined.

(** ** Array accesses *)

(** [g_pages[i]]; a fault outside the table. *)
Definition page_at (s : state) (i : Z) : option page_t :=
  if decide (0 ≤ i) then g_pages s !! Z.to_nat i else None.

(** [free_area[o]]; a fault outside [MIN_ORDER .. MAX_ORDER]. *)
Definition free_list (s : state) (o : Z) : option (list Z) :=
  if decide (MIN_ORDER ≤ o ≤ MAX_ORDER) then free_area s !! Z.to_nat o else None.

Definition set_free_list (o : Z) (l : list Z) (s : state) : state :=
  mk_state (<[Z.to_nat o := l]> (free_area s)) (g_pages s).

(** [g_pages[i].block_size = v]. *)
Definition set_block_size (i v : Z) (s : state) : option state :=
  p ← page_at s i;
  Some (mk_state (free_area s)
          (<[Z.to_nat i := mk_page v (page_index p) (block_address p)]> (g_pages s))).

(** ** The list library

    [list.h] is not among the sources.  A list head is modelled by the list
    of the pages linked on it, first node first. *)

(** Modelled from the spec: the removal of a given node from an intrusive
    list ([list_del] of the absent list.h); [e] is the page of the node. *)
Fixpoint unlink (e : Z) (l : list Z) : list Z :=
  match l with
  | [] => []
  | x :: l' => if decide (x = e) then l' else x :: unlink e l'
  end.

(** Modelled from the spec: insertion at the head of a free list
    ([list_add] of the absent list.h), here
    [list_add(&g_pages[page].list, &free_area[o])].  Linking a node that is
    still linked elsewhere would corrupt an intrusive list; in a run the
    node is on no list when it is added (lemma [in_hand_off_list] below). *)
Definition list_add (page o : Z) (s : state) : option state :=
  _ ← page_at s page;
  l ← free_list s o;
  Some (set_free_list o (page :: l) s).

(** Modelled from the spec: removal of a node from its free list
    ([list_del] of the absent list.h), here [list_del(&g_pages[page].list)]
    for a node that was just read from [free_area[o]]. *)
Definition list_del (page o : Z) (s : state) : option state :=
  l ← free_list s o;
  Some (set_free_list o (unlink page l) s).

(** ** buddy_init *)

(** The globals as the loader leaves them: all zero. *)
Definition boot : state :=
  mk_state (replicate (Z.to_nat (MAX_ORDER + 1)) [])
           (replicate (Z.to_nat PAGE_NUM) (mk_page 0 0 0)).

(** Both loops, then [list_add] of page 0 on the head of [MAX_ORDER] that
    was just emptied, then the write of its order. *)
Definition buddy_init (s : state) : state :=
  let n_pages := Z.shiftl 1 MAX_ORDER / PAGE_SIZE in
  let pages := (λ i, mk_page (-1) i (PAGE_TO_ADDR i)) <$> seqZ 0 n_pages in
  let heads :=
    foldr (λ i fa, <[Z.to_nat i := []]> fa) (free_area s)
          (seqZ MIN_ORDER (MAX_ORDER - MIN_ORDER + 1)) in
  let heads := <[Z.to_nat MAX_ORDER := [0]]> heads in
  mk_state heads (<[0%nat := mk_page MAX_ORDER 0 (PAGE_TO_ADDR 0)]> pages).

(** ** order_exp *)

Equations? order_loop (order_num size : Z) : Z
  by wf (Z.to_nat (MAX_ORDER - order_num)) lt :=
  order_loop order_num size
    with inspect ((Z.shiftl 1 order_num <? size) && (order_num <? MAX_ORDER)) => {
    | exist _ true H := order_loop (order_num + 1) size;
    | exist _ false _ := order_num }.
Proof.
  apply andb_prop in H as [_ H%Z.ltb_lt]. lia.
Qed.

Definition order_exp (size : Z) : Z := order_loop MIN_ORDER size.

(** ** split *)

Equations? split (order targetOrder index : Z) (s : state) : option (state * list event)
  by wf (Z.to_nat (order - MIN_ORDER)) lt :=
  split order targetOrder index s with decide (order = targetOrder) => {
    | left _ := Some (s, []);
    | right _
        with inspect (list_add (ADDR_TO_PAGE (BUDDY_ADDR (PAGE_TO_ADDR index) (order - 1)))
                               (order - 1) s) => {
        | exist _ None _ := None;
        | exist _ (Some s1) H with split (order - 1) targetOrder index s1 => {
            | None := None;
            | Some (s2, lg) :=
                Some (s2, SplitOff (ADDR_TO_PAGE (BUDDY_ADDR (PAGE_TO_ADDR index) (order - 1)))
                                   (order - 1) :: lg) } } }.
Proof.
  unfold list_add, free_list in H.
  destruct (page_at s _); [simpl in H|discriminate].
  destruct (decide (MIN_ORDER ≤ order - 1 ≤ MAX_ORDER)); [|discriminate].
  lia.
Qed.

(** ** buddy_alloc *)

(** The body of the scan once [free_area[i]] is found non-empty, [entry]
    being its first node. *)
Definition alloc_take (i order entry : Z) (s : state)
  : option (option Z * state * list event) :=
  if decide (i = order) then
    s1 ← list_del entry i s;
    e ← page_at s1 entry;
    Some (Some (block_address e), s1, [Take entry i])
  else
    e ← page_at s entry;
    let cur_index := page_index e in
    s1 ← list_del entry i s;
    s2 ← set_block_size entry order s1;
    '(s3, lg) ← split i order cur_index s2;
    e' ← page_at s3 entry;
    Some (Some (block_address e'), s3, Take entry i :: lg).

(** The [for] loop over the orders.  The match on the list read from
    [free_area[i]] is the [list_empty] test together with the read of the
    first node, [free_area[i].next]. *)
Equations? alloc_scan (i order : Z) (s : state) : option (option Z * state * list event)
  by wf (Z.to_nat (MAX_ORDER + 1 - i)) lt :=
  alloc_scan i order s with inspect (i <=? MAX_ORDER) => {
    | exist _ false _ := Some (None, s, []);
    | exist _ true H with free_list s i => {
        | None := None;
        | Some [] := alloc_scan (i + 1) order s;
        | Some (entry :: _) := alloc_take i order entry s } }.
Proof.
  apply Z.leb_le in H. lia.
Qed.

Definition buddy_alloc (size : Z) (s : state) : option (option Z * state * list event) :=
  let order := order_exp size in
  alloc_scan order order s.

(** ** buddy_free *)

(** The [list_for_each] search: [buddy_block] ends as the node whose
    address is [target], or else as the last node visited.  A node of a
    list is never NULL, so the first test of the loop body never fires. *)
Fixpoint list_scan (s : state) (target : Z) (l : list Z) (buddy_block : option Z)
  : option (option Z) :=
  match l with
  | [] => Some buddy_block
  | e :: l' =>
      p ← page_at s e;
      if decide (block_address p = target) then Some (Some e)
      else list_scan s target l' (Some e)
  end.

(** The two identical exits of the loop. *)
Definition free_insert (i free_index : Z) (s : state) : option (state * list event) :=
  s1 ← set_block_size free_index (-1) s;
  s2 ← list_add free_index i s1;
  Some (s2, [Release free_index i]).

Equations? free_loop (i addr free_index : Z) (s : state) : option (state * list event)
  by wf (Z.to_nat (MAX_ORDER + 1 - i)) lt :=
  free_loop i addr free_index s with inspect (i <=? MAX_ORDER) => {
    | exist _ false _ := Some (s, []);
    | exist _ true H with free_list s i => {
        | None := None;
        | Some l with list_scan s (BUDDY_ADDR addr i) l None => {
            | None := None;
            | Some None := free_insert i free_index s;
            | Some (Some b) with page_at s b => {
                | None := None;
                | Some buddy_block with decide (block_address buddy_block ≠ BUDDY_ADDR addr i) => {
                    | left _ := free_insert i free_index s;
                    | right _ with list_del b i s => {
                        | None := None;
                        | Some s1
                            with (if decide (addr > block_address buddy_block)
                                  then free_loop (i + 1) (block_address buddy_block)
                                         (to_int (ADDR_TO_PAGE (block_address buddy_block))) s1
                                  else free_loop (i + 1) addr free_index s1) => {
                            | None := None;
                            | Some (s2, lg) := Some (s2, Merge b i :: lg) } } } } } } }.
Proof.
  all: apply Z.leb_le in H; lia.
Qed.

Definition buddy_free (addr : Z) (s : state) : option (state * list event) :=
  let free_index := to_int (ADDR_TO_PAGE addr) in
  free_page ← page_at s free_index;
  let free_order := block_size free_page in
  free_loop free_order addr free_index s.

(** ** Runs of the allocator

    A run starts after [buddy_init] and is a sequence of calls.  The
    [live] list of a world records the blocks handed out and not yet
    released: the address returned and the order of the request. *)

Definition fresh_state : state := buddy_init boot.

Inductive call : Type :=
| Alloc (size : Z)
| Free (addr : Z).

Record world : Type := mk_world {
  st : state;
  live : list (Z * Z)
}.

Inductive verdict : Type :=
| Ran (w : world)   (* the call returned *)
| Crashed           (* the call faulted *)
| Misuse.           (* the caller released an address it does not hold *)

Definition fresh : world := mk_world fresh_state [].

(** The order under which [addr] is held, if it is. *)
Fixpoint held (addr : Z) (lv : list (Z * Z)) : option Z :=
  match lv with
  | [] => None
  | (a, o) :: lv' => if decide (a = addr) then Some o else held addr lv'
  end.

Fixpoint give_back (addr : Z) (lv : list (Z * Z)) : list (Z * Z) :=
  match lv with
  | [] => []
  | (a, o) :: lv' => if decide (a = addr) then lv' else (a, o) :: give_back addr lv'
  end.

Definition do_call (c : call) (w : world) : verdict :=
  match c with
  | Alloc size =>
      match buddy_alloc size (st w) with
      | None => Crashed
      | Some (None, s', _) => Ran (mk_world s' (live w))
      | Some (Some a, s', _) => Ran (mk_world s' ((a, order_exp size) :: live w))
      end
  | Free addr =>
      match held addr (live w) with
      | None => Misuse
      | Some _ =>
          match buddy_free addr (st w) with
          | None => Crashed
          | Some (s', _) => Ran (mk_world s' (give_back addr (live w)))
          end
      end
  end.

Fixpoint exec (cs : list call) (w : world) : verdict :=
  match cs with
  | [] => Ran w
  | c :: cs' =>
      match do_call c w with
      | Ran w' => exec cs' w'
      | v => v
      end
  end.

Definition reachable (w : world) : Prop := ∃ cs, exec cs fresh = Ran w.

(** ** Blocks and tiling *)

(** Length in pages of a block of order [o]. *)
Definition block_pages (o : Z) : Z := 2 ^ (o - MIN_ORDER).

(** The free blocks: (first page, order) for every node of every list. *)
Definition free_blocks (s : state) : list (Z * Z) :=
  o ← seqZ MIN_ORDER (MAX_ORDER - MIN_ORDER + 1);
  (λ k, (k, o)) <$> default [] (free_area s !! Z.to_nat o).

Definition live_blocks (lv : list (Z * Z)) : list (Z * Z) :=
  (λ b, (ADDR_TO_PAGE b.1, b.2)) <$> lv.

Definition covers (p : Z) (b : Z * Z) : bool :=
  (b.1 <=? p) && (p <? b.1 + block_pages b.2).

(** Number of blocks, free or live, that contain page [p]. *)
Definition owners (w : world) (p : Z) : nat :=
  length (filter (λ b, covers p b = true) (free_blocks (st w) ++ live_blocks (live w))).

Definition tiles (w : world) : Prop :=
  ∀ p, 0 ≤ p < PAGE_NUM → owners w p = 1%nat.

(** The page whose block is the buddy of the block of order [i] at page [k]. *)
Definition buddy_page (k i : Z) : Z :=
  if decide (k mod block_pages (i + 1) = 0) then k + block_pages i else k - block_pages i.

(** ** Well-placed and disjoint blocks *)

Definition aligned (k o : Z) : Prop := k mod block_pages o = 0.

(** A block of order [o] at page [k] that lies in the arena at a multiple
    of its own length. *)
Definition good (k o : Z) : Prop :=
  MIN_ORDER ≤ o ≤ MAX_ORDER ∧ 0 ≤ k ∧ k + block_pages o ≤ PAGE_NUM ∧ aligned k o.

(** Two blocks that share no page. *)
Definition apart (k1 o1 k2 o2 : Z) : Prop :=
  k1 + block_pages o1 ≤ k2 ∨ k2 + block_pages o2 ≤ k1.

(** ** The invariant of runs *)

(** Page [k] is linked on the free list of order [o]. *)
Definition on_list (s : state) (k o : Z) : Prop :=
  ∃ l, free_list s o = Some l ∧ k ∈ l.

(** The order recorded for page [k] does not exceed [o]. *)
Definition size_le (s : state) (k o : Z) : Prop :=
  ∀ p, page_at s k = Some p → block_size p ≤ o.

(** The block of order [o] at page [k] is well placed and shares no page
    with a free block or with a block held by the caller. *)
Definition in_hand (s : state) (lv : list (Z * Z)) (k o : Z) : Prop :=
  good k o ∧
  (∀ k' o', on_list s k' o' → apart k o k' o') ∧
  (∀ a o', (a, o') ∈ lv → apart k o (ADDR_TO_PAGE a) o').

Fixpoint all_apart (lv : list (Z * Z)) : Prop :=
  match lv with
  | [] => True
  | b :: lv' =>
      (∀ a' o', (a', o') ∈ lv' → apart (ADDR_TO_PAGE b.1) b.2 (ADDR_TO_PAGE a') o') ∧
      all_apart lv'
  end.

Record Inv (s : state) (lv : list (Z * Z)) : Prop := mk_Inv {
  inv_npages : length (g_pages s) = Z.to_nat PAGE_NUM;
  inv_pages : ∀ k p, page_at s k = Some p →
    page_index p = k ∧ block_address p = PAGE_TO_ADDR k ∧
    (block_size p = -1 ∨ (MIN_ORDER ≤ block_size p ≤ MAX_ORDER ∧ aligned k (block_size p)));
  inv_nheads : length (free_area s) = Z.to_nat (MAX_ORDER + 1);
  inv_low : ∀ i, (i < Z.to_nat MIN_ORDER)%nat → free_area s !! i = Some [];
  inv_nodup : ∀ o l, free_list s o = Some l → NoDup l;
  inv_free : ∀ k o, on_list s k o → good k o ∧ size_le s k o;
  inv_live : ∀ a o, (a, o) ∈ lv → ∃ k, a = PAGE_TO_ADDR k ∧ good k o ∧ size_le s k o;
  inv_ff : ∀ k1 o1 k2 o2, on_list s k1 o1 → on_list s k2 o2 →
    k1 ≠ k2 ∨ o1 ≠ o2 → apart k1 o1 k2 o2;
  inv_fl : ∀ k o a o', on_list s k o → (a, o') ∈ lv → apart k o (ADDR_TO_PAGE a) o';
  inv_ll : all_apart lv
}.

(** No free block has its buddy free at the same order. *)
Definition no_free_buddies (s : state) : Prop :=
  ∀ k i, on_list s k i → i < MAX_ORDER → ¬ on_list s (buddy_page k i) i.

(** ** Traces *)

(** The trace of a release that starts at order [i]: merges at the orders
    [i], [i+1], ... with none left out, then the block at page [m] linked
    on the list of the next order [f]. *)
Inductive merge_trace : Z → list event → Z → Z → Prop :=
| mt_release i m : merge_trace i [Release m i] m i
| mt_merge i b lg m f :
    merge_trace (i + 1) lg m f → merge_trace i (Merge b i :: lg) m f.


Definition is_split (ev : event) : bool :=
  match ev with SplitOff _ _ => true | _ => false end.

Definition is_merge (ev : event) : bool :=
  match ev with Merge _ _ => true | _ => false end.

(** Number of events of a kind in a trace. *)
Definition steps (f : event → bool) (lg : list event) : nat :=
  length (List.filter f lg).

(** What a release that starts at order [i] with the block at page [cur]
    leaves behind: the invariant, fewer than [n] merges, no two free
    buddies if there were none, and the block linked on one list, at page
    [m] and order [f], with the released block inside it. *)
Definition released (lv : list (Z * Z)) (s : state) (i cur : Z) (n : nat)
    (s' : state) (lg : list event) : Prop :=
  Inv s' lv ∧ (steps is_merge lg < n)%nat ∧
  (no_free_buddies s → no_free_buddies s') ∧
  ∃ m f, merge_trace i lg m f ∧ on_list s' m f ∧
         m ≤ cur ∧ cur + block_pages i ≤ m + block_pages f.

(** ** Scenarios and statements *)

(** Two blocks are handed out and released so that page 2 keeps the order
    12 of its first use; page 2 is then handed out again as a block of
    order 13 and released. *)
Definition stale_order_calls : list call :=
  [Alloc 8192; Alloc 4096; Free 0; Free 8192; Alloc 8192; Alloc 8192; Free 8192].

(** The test of the size guard of the earlier [buddy_alloc] (buddy.c). *)
Definition invalid_size (size : Z) : bool :=
  (size <=? 0) || (MEMORY_AREA <? size).

(** Byte length of a block of order [o]. *)
Definition block_bytes (o : Z) : Z := 2 ^ o.

(** The statement of C6 as the spec words it: every upper half that a
    split links carries the order of its list, and the block returned
    carries the order of the request. *)
Definition alloc_records_orders (s : state) (size : Z) : Prop :=
  ∀ a s' lg, buddy_alloc size s = Some (Some a, s', lg) →
    (∀ page j, SplitOff page j ∈ lg →
       on_list s' page j ∧ block_size <$> page_at s' page = Some j) ∧
    block_size <$> page_at s' (ADDR_TO_PAGE a) = Some (order_exp size).

(** The statement of C8 as the spec words it: after [buddy_init], a request
    followed by the release of its block gives back the state as it was,
    free lists and page records. *)
Definition round_trip_restores (size : Z) : Prop :=
  ∃ a s1 lg1 s2 lg2,
    buddy_alloc size fresh_state = Some (Some a, s1, lg1) ∧
    buddy_free a s1 = Some (s2, lg2) ∧
    s2 = fresh_state.

(** ** merge

    [merge] is called from nowhere.  It applies [list_del] to the page
    record at the buddy address of the next order, whether that record is
    linked or not. *)

Section merge.

(** Modelled from the spec: [list_del] of the absent list.h, applied to a
    node that need not be on a list; what it then does is left open. *)
Variable node_del : Z → state → option state.

(** [1 << (order + 1)] is an [int] shift: a count outside 0..30 is a
    fault. *)
Equations? merge (order addr : Z) (s : state) : option state
  by wf (Z.to_nat (31 - order)) lt :=
  merge order addr s with decide (order = MAX_ORDER) => {
    | left _ := Some s;
    | right _ with decide (0 ≤ order + 1 < 31) => {
        | right _ := None;
        | left _ with page_at s (ADDR_TO_PAGE (BUDDY_ADDR addr (order + 1))) => {
            | None := None;
            | Some _ with node_del (ADDR_TO_PAGE (BUDDY_ADDR addr (order + 1))) s => {
                | None := None;
                | Some s1 := merge (order + 1) addr s1 } } } }.
Proof. lia. Qed.

End merge.

(** ** buddy_dump *)

(** The pairs handed to [printf]: the number of nodes on the list of each
    order and the block length in KiB. *)
Definition dump_counts (s : state) : option (list (Z * Z)) :=
  mapM (λ o, l ← free_list s o; Some (Z.of_nat (length l), Z.shiftl 1 o / 1024))
       (seqZ MIN_ORDER (MAX_ORDER - MIN_ORDER + 1)).

(** The text printed: ["%d:%dK "] for each order, then a newline. *)
Definition buddy_dump (s : state) : option string :=
  cs ← dump_counts s;
  Some (String.concat "" ((λ c, pretty c.1 +:+ ":" +:+ pretty c.2 +:+ "K ") <$> cs)
        +:+ String (Ascii.ascii_of_nat 10) EmptyString).

Definition sumZ {A} (f : A → Z) (l : list A) : Z :=
  foldr (λ x acc, f x + acc) 0 l.

(** Bytes that a dump reports as free. *)
Definition dump_bytes (cs : list (Z * Z)) : Z :=
  sumZ (λ c, c.1 * (c.2 * 1024)) cs.

(** Bytes of the blocks the caller holds, each counted with the length of
    its order. *)
Definition held_bytes (lv : list (Z * Z)) : Z :=
  sumZ (λ b, block_bytes b.2) lv.

(** Pages of a list of blocks. *)
Definition pages_of (bs : list (Z * Z)) : Z :=
  sumZ (λ b, block_pages b.2) bs.

(** Every block of the list shares no page with a later one. *)
Fixpoint blocks_apart (bs : list (Z * Z)) : Prop :=
  match bs with
  | [] => True
  | b :: bs' => (∀ b', b' ∈ bs' → apart b.1 b.2 b'.1 b'.2) ∧ blocks_apart bs'
  end.

(** ** The earlier version of the allocator (buddy.c)

    Its [split] calls itself with the same arguments, so its functions run
    on fuel: [Running] is the outcome of a call that has not returned when
    the fuel ends. *)

Module Draft.

(** What [buddy_alloc] returns: NULL, an address of the arena, or the
    address of a page record ([return(entry)]). *)
Inductive ptr : Type :=
| Null
| Arena (off : Z)
| Page (k : Z).

Inductive outcome (A : Type) : Type :=
| Done (a : A)
| Fault
| Running.
Arguments Done {A} a.
Arguments Fault {A}.
Arguments Running {A}.

(** As the final [buddy_init], without the write of page 0's order. *)
Definition buddy_init (s : state) : state :=
  let n_pages := Z.shiftl 1 MAX_ORDER / PAGE_SIZE in
  let pages := (λ i, mk_page (-1) i (PAGE_TO_ADDR i)) <$> seqZ 0 n_pages in
  let heads :=
    foldr (λ i fa, <[Z.to_nat i := []]> fa) (free_area s)
          (seqZ MIN_ORDER (MAX_ORDER - MIN_ORDER + 1)) in
  let heads := <[Z.to_nat MAX_ORDER := [0]]> heads in
  mk_state heads pages.

Equations? order_loop (order_num size : Z) : Z
  by wf (Z.to_nat (MAX_ORDER + 1 - order_num)) lt :=
  order_loop order_num size
    with inspect ((Z.shiftl 1 order_num <? size) && (order_num <=? MAX_ORDER)) => {
    | exist _ true H := order_loop (order_num + 1) size;
    | exist _ false _ := order_num }.
Proof.
  apply andb_prop in H as [_ H%Z.leb_le]. lia.
Qed.

Definition order_exp (size : Z) : Z := order_loop MIN_ORDER size.

(** [split(order, index)]: links the upper half, then calls itself with
    the same arguments. *)
Fixpoint split (fuel : nat) (order index : Z) (s : state) : outcome state :=
  match fuel with
  | O => Running
  | S fuel' =>
      match list_add (ADDR_TO_PAGE (BUDDY_ADDR (PAGE_TO_ADDR index) (order - 1)))
                     (order - 1) s with
      | None => Fault
      | Some s1 => split fuel' order index s1
      end
  end.

(** How the scan of [buddy_alloc] ends: by [return(entry)], or by leaving
    the loop with [entry] set or still NULL. *)
Inductive scanned : Type :=
| Returned (entry : Z) (s : state)
| Left (entry : option Z) (s : state).

(** [for (i = order; i < MAX_ORDER; i++)]. *)
Equations? scan (i order : Z) (s : state) : option scanned
  by wf (Z.to_nat (MAX_ORDER - i)) lt :=
  scan i order s with inspect (i <? MAX_ORDER) => {
    | exist _ false _ := Some (Left None s);
    | exist _ true H with free_list s i => {
        | None := None;
        | Some [] := scan (i + 1) order s;
        | Some (entry :: _) :=
            if decide (i = order) then
              s1 ← list_del entry i s; Some (Returned entry s1)
            else if decide (i > order) then
              s1 ← list_del entry i s; Some (Left (Some entry) s1)
            else scan (i + 1) order s } }.
Proof.
  all: apply Z.ltb_lt in H; lia.
Qed.

(** [buddy_alloc]; [printStats()] only prints.  [node_del_init] stands
    for [list_del_init] of the absent list.h applied to a node that
    [list_del] has just unlinked. *)
Definition buddy_alloc (fuel : nat) (node_del_init : Z → state → option state)
    (size : Z) (s : state) : outcome (ptr * state) :=
  if (size <=? 0) || (MEMORY_AREA <? size) then Done (Null, s)
  else
    let order := order_exp size in
    match scan order order s with
    | None => Fault
    | Some (Returned entry s1) => Done (Page entry, s1)
    | Some (Left None _) => Fault
    | Some (Left (Some entry) s1) =>
        match page_at s1 entry with
        | None => Fault
        | Some e =>
            let cur_index := page_index e in
            match node_del_init entry s1 with
            | None => Fault
            | Some s2 =>
                match set_block_size entry order s2 with
                | None => Fault
                | Some s3 =>
                    match split fuel order cur_index s3 with
                    | Done s4 => Done (Arena (PAGE_TO_ADDR cur_index), s4)
                    | Fault => Fault
                    | Running => Running
                    end
                end
            end
        end
    end.

End Draft.

(** * Unfolding equations of the recursive functions *)

Lemma order_loop_eq order_num size :
  order_loop order_num size =
  if (Z.shiftl 1 order_num <? size) && (order_num <? MAX_ORDER)
  then order_loop (order_num + 1) size else order_num.
Proof.
  rewrite order_loop_equation_1.
  destruct (inspect _) as [b Hb].
  destruct b; simpl; rewrite Hb; reflexivity.
Qed.

Lemma split_eq order targetOrder index s :
  split order targetOrder index s =
  if decide (order = targetOrder) then Some (s, [])
  else
    let right := ADDR_TO_PAGE (BUDDY_ADDR (PAGE_TO_ADDR index) (order - 1)) in
    match list_add right (order - 1) s with
    | None => None
    | Some s1 =>
        match split (order - 1) targetOrder index s1 with
        | None => None
        | Some (s2, lg) => Some (s2, SplitOff right (order - 1) :: lg)
        end
    end.
Proof.
  rewrite split_equation_1.
  destruct (decide (order = targetOrder)); [reflexivity|].
  simp split. cbv zeta.
  generalize (inspect (list_add (ADDR_TO_PAGE (BUDDY_ADDR (PAGE_TO_ADDR index) (order - 1)))
          (order - 1) s)).
  intros [[s1|] Hr]; cbn.
  - destruct (split (order - 1) targetOrder index s1) as [[s2 lg]|] eqn:E;
      cbn; rewrite Hr, E; reflexivity.
  - rewrite Hr. reflexivity.
Qed.

Lemma alloc_scan_eq i order s :
  alloc_scan i order s =
  if i <=? MAX_ORDER then
    match free_list s i with
    | None => None
    | Some [] => alloc_scan (i + 1) order s
    | Some (entry :: _) => alloc_take i order entry s
    end
  else Some (None, s, []).
Proof.
  rewrite alloc_scan_equation_1.
  generalize (inspect (i <=? MAX_ORDER)).
  intros [[|] Hr]; cbn; [|rewrite Hr; reflexivity].
  destruct (free_list s i) as [[|e l]|]; cbn; rewrite Hr; reflexivity.
Qed.

Lemma free_loop_eq i addr free_index s :
  free_loop i addr free_index s =
  if i <=? MAX_ORDER then
    l ← free_list s i;
    found ← list_scan s (BUDDY_ADDR addr i) l None;
    match found with
    | None => free_insert i free_index s
    | Some b =>
        buddy_block ← page_at s b;
        if decide (block_address buddy_block ≠ BUDDY_ADDR addr i)
        then free_insert i free_index s
        else
          s1 ← list_del b i s;
          '(s2, lg) ← (if decide (addr > block_address buddy_block)
                       then free_loop (i + 1) (block_address buddy_block)
                              (to_int (ADDR_TO_PAGE (block_address buddy_block))) s1
                       else free_loop (i + 1) addr free_index s1);
          Some (s2, Merge b i :: lg)
    end
  else Some (s, []).
Proof.
  rewrite free_loop_equation_1.
  generalize (inspect (i <=? MAX_ORDER)).
  intros [[|] Hr]; cbn; [|rewrite Hr; reflexivity].
  destruct (free_list s i) as [l|]; cbn; [|rewrite Hr; reflexivity].
  destruct (list_scan s (BUDDY_ADDR addr i) l None) as [[b|]|]; cbn;
    try (rewrite Hr; reflexivity).
  destruct (page_at s b) as [bb|]; cbn; [|rewrite Hr; reflexivity].
  destruct (decide (block_address bb ≠ BUDDY_ADDR addr i)); cbn;
    [rewrite Hr; reflexivity|].
  destruct (list_del b i s) as [s1|]; cbn; [|rewrite Hr; reflexivity].
  destruct (decide (addr > block_address bb)); cbn;
    match goal with |- context [free_loop ?a ?b ?c ?d] =>
      destruct (free_loop a b c d) as [[s2 lg]|] end; cbn; rewrite Hr; reflexivity.
Qed.

(** * Arithmetic of pages and orders *)

Lemma PAGE_SIZE_val : PAGE_SIZE = 4096.
Proof. reflexivity. Qed.

Lemma PAGE_NUM_val : PAGE_NUM = 256.
Proof. reflexivity. Qed.

Lemma MEMORY_AREA_val : MEMORY_AREA = 1048576.
Proof. reflexivity. Qed.

(** Case analysis on an order known to lie in [MIN_ORDER .. MAX_ORDER]. *)
Lemma order_cases o :
  MIN_ORDER ≤ o ≤ MAX_ORDER →
  o = 12 ∨ o = 13 ∨ o = 14 ∨ o = 15 ∨ o = 16 ∨ o = 17 ∨ o = 18 ∨ o = 19 ∨ o = 20.
Proof. unfold MIN_ORDER, MAX_ORDER. lia. Qed.

Ltac each_order H :=
  let C := fresh in
  pose proof (order_cases _ H) as C;
  destruct C as [->|[->|[->|[->|[->|[->|[->|[->| ->]]]]]]]].

Ltac eval_block c :=
  let v := eval vm_compute in (block_pages c) in
  change (block_pages c) with v in *.

Ltac eval_pages :=
  repeat match goal with
    | |- context [block_pages (Z.pos ?p)] => eval_block (Z.pos p)
    | |- context [block_pages (Z.pos ?p + 1)] => eval_block (Z.pos p + 1)
    | |- context [block_pages (Z.pos ?p - 1)] => eval_block (Z.pos p - 1)
    | H : context [block_pages (Z.pos ?p)] |- _ => eval_block (Z.pos p)
    | H : context [block_pages (Z.pos ?p + 1)] |- _ => eval_block (Z.pos p + 1)
    | H : context [block_pages (Z.pos ?p - 1)] |- _ => eval_block (Z.pos p - 1)
    end.

Ltac consts :=
  rewrite ?PAGE_NUM_val, ?PAGE_SIZE_val, ?MEMORY_AREA_val in *;
  unfold MIN_ORDER, MAX_ORDER in *.

Ltac clia := consts; lia.

Ltac zsolve := consts; Z.div_mod_to_equations; lia.

Lemma forall_range (P : Z → Prop) lo n :
  Forall P (seqZ lo n) → ∀ k, lo ≤ k < lo + n → P k.
Proof.
  intros H k Hk. rewrite list.Forall_forall in H. apply H, elem_of_seqZ. lia.
Qed.

Lemma BUDDY_ADDR_page k i :
  0 ≤ k < PAGE_NUM → MIN_ORDER ≤ i < MAX_ORDER → k mod block_pages i = 0 →
  BUDDY_ADDR (PAGE_TO_ADDR k) i = PAGE_TO_ADDR (buddy_page k i).
Proof.
  intros Hk Hi.
  assert (Forall (λ k, Forall (λ i, k mod block_pages i = 0 →
            BUDDY_ADDR (PAGE_TO_ADDR k) i = PAGE_TO_ADDR (buddy_page k i))
          (seqZ 12 8)) (seqZ 0 256)) as H.
  { refine (bool_decide_unpack _ _). vm_compute. exact I. }
  apply (forall_range _ _ _ H) in Hk.
  apply (forall_range _ _ _ Hk). unfold MIN_ORDER, MAX_ORDER in Hi. lia.
Qed.

Lemma BUDDY_ADDR_top k e :
  0 ≤ k < PAGE_NUM → 0 ≤ e < PAGE_NUM →
  BUDDY_ADDR (PAGE_TO_ADDR k) MAX_ORDER ≠ PAGE_TO_ADDR e.
Proof.
  intros Hk He.
  assert (MEMORY_AREA ≤ BUDDY_ADDR (PAGE_TO_ADDR k) MAX_ORDER) as H.
  { assert (Forall (λ k, MEMORY_AREA ≤ BUDDY_ADDR (PAGE_TO_ADDR k) MAX_ORDER)
              (seqZ 0 256)) as H.
    { refine (bool_decide_unpack _ _). vm_compute. exact I. }
    apply (forall_range _ _ _ H k). rewrite PAGE_NUM_val in Hk. lia. }
  unfold PAGE_TO_ADDR at 2. rewrite MEMORY_AREA_val in H. zsolve.
Qed.

Lemma ADDR_TO_PAGE_TO_ADDR k :
  0 ≤ k < PAGE_NUM → ADDR_TO_PAGE (PAGE_TO_ADDR k) = k.
Proof.
  intros Hk. unfold ADDR_TO_PAGE, PAGE_TO_ADDR, ulong.
  rewrite PAGE_NUM_val in Hk. rewrite PAGE_SIZE_val.
  rewrite Z.mod_small by lia. apply Z.div_mul. lia.
Qed.

Lemma to_int_small k : 0 ≤ k < PAGE_NUM → to_int k = k.
Proof.
  intros Hk. unfold to_int. rewrite PAGE_NUM_val in Hk.
  rewrite Z.mod_small; lia.
Qed.

Lemma PAGE_TO_ADDR_inj k1 k2 : PAGE_TO_ADDR k1 = PAGE_TO_ADDR k2 → k1 = k2.
Proof. unfold PAGE_TO_ADDR. rewrite PAGE_SIZE_val. lia. Qed.

Lemma block_pages_pos o : MIN_ORDER ≤ o → 0 < block_pages o.
Proof. intros H. unfold block_pages. apply Z.pow_pos_nonneg; lia. Qed.

Lemma block_pages_succ o : MIN_ORDER ≤ o → block_pages (o + 1) = 2 * block_pages o.
Proof.
  intros H. unfold block_pages.
  replace (o + 1 - MIN_ORDER) with (Z.succ (o - MIN_ORDER)) by lia.
  apply Z.pow_succ_r. lia.
Qed.

Lemma good_page k o : good k o → 0 ≤ k < PAGE_NUM.
Proof. intros (Ho & ? & ? & _). pose proof (block_pages_pos o). lia. Qed.

Lemma apart_sym k1 o1 k2 o2 : apart k1 o1 k2 o2 → apart k2 o2 k1 o1.
Proof. unfold apart. lia. Qed.

Lemma apart_irrefl k o1 o2 : MIN_ORDER ≤ o1 → MIN_ORDER ≤ o2 → ¬ apart k o1 k o2.
Proof.
  intros H1 H2. pose proof (block_pages_pos o1). pose proof (block_pages_pos o2).
  unfold apart. lia.
Qed.

(** A sub-block of a well-placed block at the same page. *)
Lemma good_shrink k o o' : good k o → MIN_ORDER ≤ o' ≤ o → good k o'.
Proof.
  intros (Ho & Hk & Hn & Ha) Ho'. unfold good, aligned in *.
  assert (MIN_ORDER ≤ o' ≤ MAX_ORDER) as Hr by lia.
  split; [lia|]. split; [lia|].
  each_order Ho; each_order Hr; eval_pages; zsolve.
Qed.

Lemma apart_shrink k o o' k2 o2 :
  MIN_ORDER ≤ o' ≤ o → o ≤ MAX_ORDER → apart k o k2 o2 → apart k o' k2 o2.
Proof.
  intros Ho' Ho. unfold apart.
  assert (block_pages o' ≤ block_pages o); [|lia].
  unfold block_pages. apply Z.pow_le_mono_r; lia.
Qed.

(** The upper half of a well-placed block. *)
Lemma good_upper_half k j :
  good k j → MIN_ORDER < j →
  buddy_page k (j - 1) = k + block_pages (j - 1) ∧
  good (k + block_pages (j - 1)) (j - 1) ∧
  apart k (j - 1) (k + block_pages (j - 1)) (j - 1) ∧
  (∀ k2 o2, apart k j k2 o2 → apart (k + block_pages (j - 1)) (j - 1) k2 o2) ∧
  (∀ b, MIN_ORDER ≤ b ≤ MAX_ORDER → aligned (k + block_pages (j - 1)) b → b ≤ j - 1).
Proof.
  intros (Ho & Hk & Hn & Ha) Hj. unfold buddy_page, good, aligned, apart in *.
  replace (j - 1 + 1) with j by lia.
  rewrite decide_True by done.
  assert (block_pages j = 2 * block_pages (j - 1)) as E.
  { rewrite <- block_pages_succ by lia. f_equal. lia. }
  pose proof (block_pages_pos (j - 1)).
  split; [done|]. split; [|split; [lia|split]].
  - split; [lia|]. split; [lia|]. split; [lia|].
    each_order Ho; eval_pages; zsolve.
  - intros. lia.
  - intros b Hb Hal. each_order Ho; each_order Hb; eval_pages; zsolve.
Qed.

(** Two free buddies make one well-placed block of the next order. *)
Lemma good_merge k i :
  good k i → i < MAX_ORDER →
  let b := buddy_page k i in
  let m := Z.min k b in
  good b i ∧ good m (i + 1) ∧ b ≠ k ∧
  (PAGE_TO_ADDR k > PAGE_TO_ADDR b ↔ b < k) ∧
  (∀ k2 o2, MIN_ORDER ≤ o2 → apart k i k2 o2 → apart b i k2 o2 → apart m (i + 1) k2 o2).
Proof.
  intros (Ho & Hk & Hn & Ha) Hi. unfold buddy_page, good, aligned, apart in *.
  rewrite block_pages_succ by lia.
  pose proof (block_pages_pos i).
  assert (MIN_ORDER ≤ i + 1 ≤ MAX_ORDER) as Hi1 by lia.
  unfold PAGE_TO_ADDR. rewrite PAGE_SIZE_val.
  destruct (decide (k mod (2 * block_pages i) = 0)) as [E|E]; cbv zeta.
  - repeat split; intros; try lia.
    all: try pose proof (block_pages_pos o2 ltac:(assumption)).
    all: each_order Ho; eval_pages; zsolve.
  - repeat split; intros; try lia.
    all: try pose proof (block_pages_pos o2 ltac:(assumption)).
    all: each_order Ho; eval_pages; zsolve.
Qed.

Lemma buddy_page_invol k i :
  good k i → i < MAX_ORDER → buddy_page (buddy_page k i) i = k ∧ buddy_page k i ≠ k.
Proof.
  intros (Ho & Hk & Hn & Ha) Hi. unfold buddy_page, aligned in *.
  each_order Ho; eval_pages; try clia;
    repeat match goal with |- context [decide ?P] => destruct (decide P) end;
    zsolve.
Qed.

Lemma buddy_of_upper_half k j :
  good k j → MIN_ORDER < j → buddy_page (k + block_pages (j - 1)) (j - 1) = k.
Proof.
  intros Hg Hj. destruct (good_upper_half k j Hg Hj) as (Hb & _).
  assert (good k (j - 1)) as Hs by (apply good_shrink with j; [done|destruct Hg; lia]).
  rewrite <- Hb. apply buddy_page_invol; [done|]. destruct Hg. lia.
Qed.

(** * Array accesses after an update *)

Lemma free_list_range s o l : free_list s o = Some l → MIN_ORDER ≤ o ≤ MAX_ORDER.
Proof. unfold free_list. destruct (decide _); [done|discriminate]. Qed.

Lemma free_list_is_Some s o :
  length (free_area s) = Z.to_nat (MAX_ORDER + 1) → MIN_ORDER ≤ o ≤ MAX_ORDER →
  is_Some (free_list s o).
Proof.
  intros Hl Ho. unfold free_list. rewrite decide_True by done.
  apply lookup_lt_is_Some. rewrite Hl. clia.
Qed.

Lemma page_at_range s k p :
  length (g_pages s) = Z.to_nat PAGE_NUM → page_at s k = Some p → 0 ≤ k < PAGE_NUM.
Proof.
  intros Hl. unfold page_at. destruct (decide _); [|discriminate].
  intros H%lookup_lt_Some. rewrite Hl in H. clia.
Qed.

Lemma page_at_is_Some s k :
  length (g_pages s) = Z.to_nat PAGE_NUM → 0 ≤ k < PAGE_NUM → is_Some (page_at s k).
Proof.
  intros Hl Hk. unfold page_at. rewrite decide_True by lia.
  apply lookup_lt_is_Some. rewrite Hl. clia.
Qed.

Lemma free_list_set s o l o' :
  length (free_area s) = Z.to_nat (MAX_ORDER + 1) → MIN_ORDER ≤ o ≤ MAX_ORDER →
  free_list (set_free_list o l s) o' = if decide (o' = o) then Some l else free_list s o'.
Proof.
  intros Hl Ho. unfold free_list, set_free_list. simpl.
  destruct (decide (o' = o)) as [->|Hne].
  - rewrite decide_True by done. apply list_lookup_insert_eq. rewrite Hl. clia.
  - destruct (decide (MIN_ORDER ≤ o' ≤ MAX_ORDER)); [|done].
    apply list_lookup_insert_ne. clia.
Qed.

Lemma page_at_set_block_size s k v s' k' :
  set_block_size k v s = Some s' →
  free_area s' = free_area s ∧
  page_at s' k' =
    if decide (k' = k)
    then (λ p, mk_page v (page_index p) (block_address p)) <$> page_at s k
    else page_at s k'.
Proof.
  unfold set_block_size. destruct (page_at s k) as [p|] eqn:E; [|discriminate].
  simpl. intros [= <-]. split; [done|]. unfold page_at in *. simpl.
  destruct (decide (0 ≤ k)); [|discriminate].
  destruct (decide (k' = k)) as [->|Hne].
  - rewrite decide_True by done.
    apply list_lookup_insert_eq. by eapply lookup_lt_Some.
  - destruct (decide (0 ≤ k')); [|done].
    apply list_lookup_insert_ne. lia.
Qed.

Lemma set_block_size_is_Some s k v p :
  page_at s k = Some p → is_Some (set_block_size k v s).
Proof. intros E. unfold set_block_size. rewrite E. by eexists. Qed.

(** * Removal of a node *)

Lemma elem_of_unlink_1 e l k : k ∈ unlink e l → k ∈ l.
Proof.
  induction l as [|x l IH]; simpl; [done|].
  destruct (decide (x = e)); rewrite ?elem_of_cons; [tauto|]. intros [->|H]; auto.
Qed.

Lemma elem_of_unlink e l k : NoDup l → k ∈ unlink e l ↔ k ∈ l ∧ k ≠ e.
Proof.
  induction l as [|x l IH]; simpl; intros Hd.
  - rewrite elem_of_nil. tauto.
  - apply list.NoDup_cons in Hd as [Hx Hd]. specialize (IH Hd).
    destruct (decide (x = e)) as [->|Hne]; rewrite !elem_of_cons.
    + split; [intros H; split; [auto|by intros ->]|]. intros [[->|H] Hk]; done.
    + rewrite IH. split; [intros [->|[? ?]]; auto|]. intros [[->|H] Hk]; auto.
Qed.

Lemma NoDup_unlink e l : NoDup l → NoDup (unlink e l).
Proof.
  induction l as [|x l IH]; simpl; intros Hd; [done|].
  apply list.NoDup_cons in Hd as [Hx Hd].
  destruct (decide (x = e)); [done|].
  apply list.NoDup_cons. split; [|auto]. intros H%elem_of_unlink_1. done.
Qed.

Lemma on_list_range s k o : on_list s k o → MIN_ORDER ≤ o ≤ MAX_ORDER.
Proof. intros (l & Hl & _). by eapply free_list_range. Qed.

Lemma on_list_set s o l k' o' :
  length (free_area s) = Z.to_nat (MAX_ORDER + 1) → MIN_ORDER ≤ o ≤ MAX_ORDER →
  on_list (set_free_list o l s) k' o' ↔ (o' = o ∧ k' ∈ l) ∨ (o' ≠ o ∧ on_list s k' o').
Proof.
  intros Hl Ho. unfold on_list. setoid_rewrite free_list_set; [|done..].
  destruct (decide (o' = o)) as [->|Hne].
  - split.
    + intros (l' & [= <-] & Hk). auto.
    + intros [[_ Hk]|[? _]]; [eauto|done].
  - split; [auto|]. intros [[? _]|[_ H]]; done.
Qed.

(** Replacing one free list by nodes that were on it and at most one node
    that is in hand. *)
Lemma Inv_set_free_list s lv o l l' knew :
  Inv s lv → free_list s o = Some l → NoDup l' →
  (∀ k, k ∈ l' → k ∈ l ∨ (k = knew ∧ in_hand s lv knew o ∧ size_le s knew o)) →
  Inv (set_free_list o l' s) lv.
Proof.
  intros HI Hl Hd Hin.
  pose proof (free_list_range _ _ _ Hl) as Ho.
  pose proof (inv_nheads _ _ HI) as Hn.
  assert (∀ k' o', on_list (set_free_list o l' s) k' o' →
            on_list s k' o' ∨
            (o' = o ∧ k' = knew ∧ in_hand s lv knew o ∧ size_le s knew o)) as Hold.
  { intros k' o' [[-> Hk]|[_ H]]%on_list_set; [|auto|done..].
    destruct (Hin _ Hk) as [H|H]; [left; by exists l|auto]. }
  split.
  - apply HI.
  - apply HI.
  - simpl. by rewrite length_insert.
  - intros i Hi. simpl. rewrite list_lookup_insert_ne; [by apply HI|]. clia.
  - intros o' l0. rewrite free_list_set by done.
    destruct (decide (o' = o)); simpl; [intros ?; by simplify_eq|apply HI].
  - intros k' o' [H|(-> & -> & Hh & Hs)]%Hold; [by apply HI|].
    split; [apply Hh|apply Hs].
  - intros a o' H. by apply HI.
  - intros k1 o1 k2 o2 [H1|(-> & -> & Hh1 & _)]%Hold [H2|(-> & -> & Hh2 & _)]%Hold Hne.
    + by apply HI.
    + apply apart_sym. by apply Hh2.
    + by apply Hh1.
    + by destruct Hne.
  - intros k' o' a o2 [H|(-> & -> & Hh & _)]%Hold Ha; [by eapply (inv_fl _ _ HI)|].
    by apply Hh.
  - apply HI.
Qed.

Lemma in_hand_mono s s' lv k o :
  in_hand s lv k o →
  (∀ k' o', on_list s' k' o' → on_list s k' o' ∨ apart k o k' o') →
  in_hand s' lv k o.
Proof.
  intros (Hg & Hf & Hl) H. split; [done|]. split; [|done].
  intros k' o' [H'|H']%H; auto.
Qed.

Lemma in_hand_off_list s lv k o o' : in_hand s lv k o → ¬ on_list s k o'.
Proof.
  intros (Hg & Hf & _) H. pose proof (on_list_range _ _ _ H).
  apply (apart_irrefl k o o'); [apply Hg|lia|]. by apply Hf.
Qed.

Lemma in_hand_not_live s lv k o a o' :
  Inv s lv → in_hand s lv k o → (a, o') ∈ lv → ADDR_TO_PAGE a ≠ k.
Proof.
  intros HI (Hg & _ & Hl) Ha <-.
  destruct (inv_live _ _ HI _ _ Ha) as (k' & -> & Hg' & _).
  apply (apart_irrefl (ADDR_TO_PAGE (PAGE_TO_ADDR k')) o o'); [apply Hg|apply Hg'|].
  by eapply Hl.
Qed.

(** ** list_add on a block in hand *)

Lemma list_add_Inv s lv k o :
  Inv s lv → in_hand s lv k o → size_le s k o →
  ∃ s' l, list_add k o s = Some s' ∧ Inv s' lv ∧ g_pages s' = g_pages s ∧
    free_list s o = Some l ∧ free_list s' o = Some (k :: l) ∧
    (∀ o', o' ≠ o → free_list s' o' = free_list s o') ∧
    (∀ k' o', on_list s' k' o' ↔ (k' = k ∧ o' = o) ∨ on_list s k' o').
Proof.
  intros HI Hh Hs. pose proof Hh as (Hg & Hf & Hl).
  pose proof (inv_nheads _ _ HI) as Hn.
  destruct (page_at_is_Some s k (inv_npages _ _ HI) (good_page _ _ Hg)) as [p Hp].
  destruct (free_list_is_Some s o Hn) as [l Hfl]; [apply Hg|].
  pose proof (free_list_range _ _ _ Hfl) as Ho.
  exists (set_free_list o (k :: l) s), l.
  assert (k ∉ l) as Hk.
  { intros Hk. apply (in_hand_off_list _ _ _ _ o Hh). by exists l. }
  split; [unfold list_add; by rewrite Hp, Hfl|].
  split.
  { apply (Inv_set_free_list s lv o l (k :: l) k); [done..| |].
    - apply list.NoDup_cons. split; [done|]. by eapply inv_nodup.
    - intros k' [->|Hk']%elem_of_cons; auto. }
  split; [done|]. split; [done|].
  split; [rewrite free_list_set by done; by rewrite decide_True|].
  split; [intros o' Hne; rewrite free_list_set by done; by rewrite decide_False|].
  intros k' o'. rewrite on_list_set by done. rewrite elem_of_cons.
  split.
  - intros [[-> [->|Hk']]|[_ H]]; auto. right. by exists l.
  - intros [[-> ->]|H]; [auto|].
    destruct (decide (o' = o)) as [->|Hne]; [|auto].
    left. split; [done|]. right. destruct H as (l' & Hl' & Hk'). congruence.
Qed.

(** ** list_del of a block that is on a list *)

Lemma list_del_Inv s lv k o :
  Inv s lv → on_list s k o →
  ∃ s' l, list_del k o s = Some s' ∧ Inv s' lv ∧ g_pages s' = g_pages s ∧
    in_hand s' lv k o ∧
    free_list s o = Some l ∧ free_list s' o = Some (unlink k l) ∧
    (∀ o', o' ≠ o → free_list s' o' = free_list s o') ∧
    (∀ k' o', on_list s' k' o' ↔ on_list s k' o' ∧ (k' ≠ k ∨ o' ≠ o)).
Proof.
  intros HI Hon. pose proof Hon as (l & Hfl & Hk).
  pose proof (inv_nheads _ _ HI) as Hn.
  pose proof (free_list_range _ _ _ Hfl) as Ho.
  pose proof (inv_nodup _ _ HI _ _ Hfl) as Hd.
  exists (set_free_list o (unlink k l) s), l.
  assert (∀ k' o', on_list (set_free_list o (unlink k l) s) k' o' ↔
                   on_list s k' o' ∧ (k' ≠ k ∨ o' ≠ o)) as Hchar.
  { intros k' o'. rewrite on_list_set by done. rewrite elem_of_unlink by done.
    split.
    - intros [[-> [Hk' Hne]]|[Hne H]]; [|auto]. split; [by exists l|auto].
    - intros [H Hne]. destruct (decide (o' = o)) as [->|Hno]; [|auto].
      left. split; [done|]. destruct H as (l' & Hl' & Hk').
      split; [congruence|]. by destruct Hne. }
  split; [unfold list_del; by rewrite Hfl|].
  split.
  { apply (Inv_set_free_list s lv o l (unlink k l) 0); [done..| |].
    - by apply NoDup_unlink.
    - intros k' Hk'%elem_of_unlink_1. auto. }
  split; [done|]. split.
  { split; [by apply (inv_free _ _ HI)|]. split.
    - intros k' o' [H Hne]%Hchar. apply (inv_ff _ _ HI); [done..|].
      destruct Hne; auto.
    - intros a o' Ha. by apply (inv_fl _ _ HI). }
  split; [done|].
  split; [rewrite free_list_set by done; by rewrite decide_True|].
  split; [intros o' Hne; rewrite free_list_set by done; by rewrite decide_False|].
  done.
Qed.

(** ** Recording an order *)

Lemma set_block_size_Inv s lv k v :
  Inv s lv → 0 ≤ k < PAGE_NUM →
  v = -1 ∨ (MIN_ORDER ≤ v ≤ MAX_ORDER ∧ aligned k v) →
  (∀ o, on_list s k o → v ≤ o) →
  (∀ a o, (a, o) ∈ lv → ADDR_TO_PAGE a = k → v ≤ o) →
  ∃ s', set_block_size k v s = Some s' ∧ Inv s' lv ∧ free_area s' = free_area s ∧
    page_at s' k = Some (mk_page v k (PAGE_TO_ADDR k)) ∧
    (∀ k', k' ≠ k → page_at s' k' = page_at s k').
Proof.
  intros HI Hk Hv Hon Hlv.
  destruct (page_at_is_Some s k (inv_npages _ _ HI) Hk) as [p Hp].
  destruct (set_block_size_is_Some s k v p Hp) as [s' Hs'].
  exists s'. split; [done|].
  pose proof (λ k', page_at_set_block_size s k v s' k' Hs') as Hpg.
  assert (free_area s' = free_area s) as Hfa by apply (Hpg 0).
  assert (∀ o, free_list s' o = free_list s o) as Hfl.
  { intros o. unfold free_list. by rewrite Hfa. }
  assert (∀ k' o, on_list s' k' o ↔ on_list s k' o) as Hol.
  { intros k' o. unfold on_list. by setoid_rewrite Hfl. }
  destruct (inv_pages _ _ HI _ _ Hp) as (Hpi & Hpa & _).
  assert (page_at s' k = Some (mk_page v k (PAGE_TO_ADDR k))) as Hk'.
  { destruct (Hpg k) as [_ ->]. rewrite decide_True by done. rewrite Hp. simpl.
    by rewrite Hpi, Hpa. }
  assert (∀ k', k' ≠ k → page_at s' k' = page_at s k') as Hother.
  { intros k' Hne. destruct (Hpg k') as [_ ->]. by rewrite decide_False. }
  assert (∀ k' o, size_le s k' o → (k' = k → v ≤ o) → size_le s' k' o) as Hsz.
  { intros k' o Hs Hvo q. destruct (decide (k' = k)) as [->|Hne].
    - rewrite Hk'. intros [= <-]. simpl. auto.
    - rewrite Hother by done. apply Hs. }
  split; [|done].
  split.
  - unfold set_block_size in Hs'. rewrite Hp in Hs'. simpl in Hs'.
    injection Hs' as <-. simpl. rewrite length_insert. apply HI.
  - intros k' q. destruct (decide (k' = k)) as [->|Hne].
    + rewrite Hk'. intros [= <-]. simpl. auto.
    + rewrite Hother by done. apply HI.
  - rewrite Hfa. apply HI.
  - rewrite Hfa. apply HI.
  - intros o l. rewrite Hfl. apply HI.
  - intros k' o H%Hol. destruct (inv_free _ _ HI _ _ H) as [Hg Hs].
    split; [done|]. apply Hsz; [done|]. intros ->. auto.
  - intros a o Ha. destruct (inv_live _ _ HI _ _ Ha) as (k' & -> & Hg & Hs).
    exists k'. split; [done|]. split; [done|]. apply Hsz; [done|].
    intros ->. apply (Hlv _ _ Ha). by apply ADDR_TO_PAGE_TO_ADDR, good_page with o.
  - intros k1 o1 k2 o2 H1%Hol H2%Hol. by apply HI.
  - intros k' o a o' H%Hol. by apply (inv_fl _ _ HI).
  - apply HI.
Qed.

(** ** split on a block in hand *)

Lemma split_right_page k j :
  good k j → MIN_ORDER < j →
  ADDR_TO_PAGE (BUDDY_ADDR (PAGE_TO_ADDR k) (j - 1)) = k + block_pages (j - 1).
Proof.
  intros Hg Hj.
  destruct (good_upper_half k j Hg Hj) as (Hb & Hg' & _).
  assert (good k (j - 1)) as Hs by (apply good_shrink with j; [done|destruct Hg; lia]).
  rewrite BUDDY_ADDR_page; [|by eapply good_page|destruct Hg; lia|apply Hs].
  rewrite Hb. apply ADDR_TO_PAGE_TO_ADDR. by eapply good_page.
Qed.

Lemma in_hand_shrink s lv k o o' :
  in_hand s lv k o → MIN_ORDER ≤ o' ≤ o → in_hand s lv k o'.
Proof.
  intros (Hg & Hf & Hl) Ho. split; [by eapply good_shrink|].
  split; intros; eapply apart_shrink; eauto; apply Hg.
Qed.

Lemma split_Inv lv target k n :
  ∀ j s, Z.to_nat (j - target) = n →
  Inv s lv → in_hand s lv k j → MIN_ORDER ≤ target ≤ j →
  ∃ s' lg, split j target k s = Some (s', lg) ∧ Inv s' lv ∧
    in_hand s' lv k target ∧ g_pages s' = g_pages s ∧
    length lg = n ∧
    (∀ ev, ev ∈ lg → ∃ i, target ≤ i < j ∧ ev = SplitOff (k + block_pages i) i) ∧
    (∀ i, target ≤ i < j → on_list s' (k + block_pages i) i) ∧
    (∀ o, j ≤ o → free_list s' o = free_list s o) ∧
    (∀ k' o', on_list s' k' o' ↔
       on_list s k' o' ∨ (target ≤ o' < j ∧ k' = k + block_pages o')).
Proof.
  induction n as [|n IH]; intros j s Hn HI Hh Ht; rewrite split_eq.
  - rewrite decide_True by lia. exists s, []. split; [done|]. split; [done|].
    assert (j = target) as -> by lia.
    split; [done|]. split; [done|]. split; [done|].
    split; [by intros ev ?%elem_of_nil|]. split; [intros; lia|]. split; [done|].
    intros k' o'. split; [auto|]. intros [H|[H _]]; [done|lia].
  - rewrite decide_False by lia. cbv zeta.
    pose proof Hh as (Hg & Hf & Hl).
    assert (MIN_ORDER < j) as Hj by lia.
    rewrite (split_right_page k j Hg Hj).
    destruct (good_upper_half k j Hg Hj) as (_ & Hgr & Hlr & Hap & Hal).
    set (r := k + block_pages (j - 1)) in *.
    assert (in_hand s lv r (j - 1)) as Hhr.
    { split; [done|]. split; intros; apply Hap; auto. }
    assert (size_le s r (j - 1)) as Hsz.
    { intros p Hp. destruct (inv_pages _ _ HI _ _ Hp) as (_ & _ & [->|[Hr Ha]]).
      - clia.
      - by apply Hal. }
    destruct (list_add_Inv s lv r (j - 1) HI Hhr Hsz)
      as (s1 & l & -> & HI1 & Hp1 & Hl0 & Hl1 & Hlo & Hon1).
    assert (in_hand s1 lv k (j - 1)) as Hh1.
    { apply in_hand_mono with s; [apply in_hand_shrink with j; [done|lia]|].
      intros k' o' [[-> ->]|H]%Hon1; auto. }
    destruct (IH (j - 1) s1)
      as (s' & lg & -> & HI' & Hh' & Hp' & Hlen & Hev & Hon' & Hfl' & Hch');
      [lia|done|done|lia|].
    eexists _, _. split; [done|]. split; [done|]. split; [done|].
    split; [congruence|]. split; [simpl; lia|].
    split; [|split; [|split]].
    + intros ev [->|H]%elem_of_cons.
      * exists (j - 1). split; [lia|done].
      * destruct (Hev _ H) as (i & Hi & ->). exists i. split; [lia|done].
    + intros i Hi. destruct (decide (i = j - 1)) as [->|Hne]; [|apply Hon'; lia].
      exists (r :: l). split; [|by left].
      rewrite Hfl' by lia. done.
    + intros o Ho. rewrite Hfl' by lia. apply Hlo. lia.
    + intros k' o'. rewrite Hch', Hon1. unfold r. split.
      * intros [[[-> ->]|H]|[Ho' ->]]; [right|by left|right]; (split; [lia|done]).
      * intros [H|[Ho' ->]]; [left; by right|].
        destruct (decide (o' = j - 1)) as [->|]; [left; by left|].
        right. split; [lia|done].
Qed.

(** A split leaves no two free buddies behind. *)
Lemma split_no_free_buddies s s' lv k j target :
  Inv s lv → in_hand s lv k j → MIN_ORDER ≤ target ≤ j →
  (∀ k' o', on_list s' k' o' ↔
     on_list s k' o' ∨ (target ≤ o' < j ∧ k' = k + block_pages o')) →
  no_free_buddies s → no_free_buddies s'.
Proof.
  intros HI Hh Ht Hch HM k' o' H1 Ho' H2.
  assert (∀ o, ¬ on_list s k o) as Hoff by (intros o; by eapply in_hand_off_list).
  assert (∀ o, target ≤ o < j → buddy_page (k + block_pages o) o = k) as Hup.
  { intros o Ho. replace o with (o + 1 - 1) by lia.
    apply buddy_of_upper_half; [|lia].
    apply good_shrink with j; [apply Hh|lia]. }
  apply Hch in H1 as [H1|[Hr1 ->]]; apply Hch in H2 as [H2|[Hr2 E]].
  - by apply (HM k' o').
  - destruct (inv_free _ _ HI _ _ H1) as [Hg _].
    destruct (buddy_page_invol k' o' Hg Ho') as [Hinv _].
    rewrite E, Hup in Hinv by done. subst k'. by apply (Hoff o').
  - rewrite Hup in H2 by done. by apply (Hoff o').
  - rewrite Hup in E by done. pose proof (block_pages_pos o' ltac:(lia)). lia.
Qed.

(** ** order_exp stays within the orders *)

Lemma order_loop_range size n :
  ∀ o, Z.to_nat (MAX_ORDER - o) = n → MIN_ORDER ≤ o ≤ MAX_ORDER →
  o ≤ order_loop o size ≤ MAX_ORDER.
Proof.
  induction n as [|n IH]; intros o Hn Ho; rewrite order_loop_eq.
  - replace (o <? MAX_ORDER) with false by (symmetry; apply Z.ltb_ge; lia).
    rewrite andb_false_r. lia.
  - destruct (_ && _); [|lia].
    specialize (IH (o + 1)). lia.
Qed.

Lemma order_exp_range size : MIN_ORDER ≤ order_exp size ≤ MAX_ORDER.
Proof.
  unfold order_exp.
  pose proof (order_loop_range size _ MIN_ORDER eq_refl). clia.
Qed.

(** For a valid size, [order_exp] is the least order whose block holds the
    request. *)
Lemma order_loop_least size n :
  ∀ o, Z.to_nat (MAX_ORDER - o) = n → MIN_ORDER ≤ o ≤ MAX_ORDER →
  size ≤ block_bytes MAX_ORDER →
  size ≤ block_bytes (order_loop o size) ∧
  ∀ o', o ≤ o' < order_loop o size → block_bytes o' < size.
Proof.
  unfold block_bytes.
  induction n as [|n IH]; intros o Hn Ho Hs; rewrite order_loop_eq;
    rewrite Z.shiftl_1_l.
  - assert (o = MAX_ORDER) as -> by lia.
    rewrite Z.ltb_irrefl, andb_false_r. split; [done|]. intros; lia.
  - destruct (Z.ltb_spec (2 ^ o) size) as [Hlt|Hge]; simpl.
    + destruct (Z.ltb_spec o MAX_ORDER) as [Hlo|Hhi].
      * destruct (IH (o + 1)) as [Hfit Hleast]; [lia..|done|].
        split; [done|]. intros o' Ho'.
        destruct (decide (o' = o)) as [->|]; [done|]. apply Hleast. lia.
      * assert (o = MAX_ORDER) as -> by lia. split; [done|]. intros; lia.
    + split; [done|]. intros; lia.
Qed.

Lemma order_exp_least size :
  1 ≤ size ≤ MEMORY_AREA →
  size ≤ block_bytes (order_exp size) ∧
  ∀ o, MIN_ORDER ≤ o < order_exp size → block_bytes o < size.
Proof.
  intros Hs. apply (order_loop_least size _ MIN_ORDER eq_refl); [clia|].
  change (block_bytes MAX_ORDER) with MEMORY_AREA. lia.
Qed.

(** ** Handing a block in hand to the caller *)

Lemma Inv_cons_live s lv k o :
  Inv s lv → in_hand s lv k o → size_le s k o →
  Inv s ((PAGE_TO_ADDR k, o) :: lv).
Proof.
  intros HI (Hg & Hf & Hl) Hs.
  assert (ADDR_TO_PAGE (PAGE_TO_ADDR k) = k) as Hk
    by (apply ADDR_TO_PAGE_TO_ADDR; by eapply good_page).
  split; try apply HI.
  - intros a o' [[= -> ->]|H]%elem_of_cons; [by exists k|by apply HI].
  - intros k' o' a o2 Hon [[= -> ->]|H]%elem_of_cons.
    + rewrite Hk. apply apart_sym. by apply Hf.
    + by apply (inv_fl _ _ HI).
  - simpl. split; [|apply HI]. rewrite Hk. done.
Qed.

Lemma on_list_same_area s s' k o :
  free_area s' = free_area s → on_list s' k o ↔ on_list s k o.
Proof. intros H. unfold on_list, free_list. by rewrite H. Qed.

(** ** buddy_alloc: the block found on the first non-empty list *)

Lemma alloc_take_Inv s lv i order e l :
  Inv s lv → free_list s i = Some (e :: l) → MIN_ORDER ≤ order ≤ i →
  ∃ s' lg, alloc_take i order e s = Some (Some (PAGE_TO_ADDR e), s', Take e i :: lg) ∧
    Inv s' ((PAGE_TO_ADDR e, order) :: lv) ∧
    in_hand s' lv e order ∧
    free_list s' i = Some l ∧
    length lg = Z.to_nat (i - order) ∧
    (∀ ev, ev ∈ lg → ∃ j, order ≤ j < i ∧ ev = SplitOff (e + block_pages j) j) ∧
    (∀ j, order ≤ j < i → on_list s' (e + block_pages j) j) ∧
    (i = order → g_pages s' = g_pages s) ∧
    (i ≠ order → page_at s' e = Some (mk_page order e (PAGE_TO_ADDR e)) ∧
                 ∀ k, k ≠ e → page_at s' k = page_at s k) ∧
    (no_free_buddies s → no_free_buddies s').
Proof.
  intros HI Hfl Ho.
  assert (on_list s e i) as Hon by (exists (e :: l); split; [done|by left]).
  destruct (inv_free _ _ HI _ _ Hon) as [Hg Hsz].
  pose proof (good_page _ _ Hg) as He.
  destruct (page_at_is_Some s e (inv_npages _ _ HI) He) as [p Hp].
  destruct (inv_pages _ _ HI _ _ Hp) as (Hpi & Hpa & _).
  destruct (list_del_Inv s lv e i HI Hon)
    as (s1 & l0 & Hdel & HI1 & Hp1 & Hh1 & Hl0 & Hl1 & Hlo1 & Hon1).
  assert (l0 = e :: l) as -> by congruence.
  simpl in Hl1. rewrite decide_True in Hl1 by done.
  assert (∀ k, page_at s1 k = page_at s k) as Hpg1.
  { intros k. unfold page_at. by rewrite Hp1. }
  assert (no_free_buddies s → no_free_buddies s1) as HM1.
  { intros HM k' o' [H1 _]%Hon1 Ho' [H2 _]%Hon1. by apply (HM k' o'). }
  unfold alloc_take. destruct (decide (i = order)) as [->|Hne].
  - rewrite Hdel. simpl. rewrite Hpg1, Hp. simpl. rewrite Hpa.
    exists s1, []. split; [done|].
    assert (size_le s1 e order) as Hsz1.
    { intros q. rewrite Hpg1. apply Hsz. }
    split; [by apply Inv_cons_live|]. split; [done|]. split; [done|].
    split; [simpl; lia|]. split; [by intros ev ?%elem_of_nil|].
    split; [intros; lia|]. split; [done|]. split; [done|]. done.
  - rewrite Hp. simpl. rewrite Hdel. simpl. rewrite Hpi.
    destruct (set_block_size_Inv s1 lv e order HI1 He)
      as (s2 & -> & HI2 & Hfa2 & Hpe2 & Hpo2).
    { right. split; [destruct Hg; lia|]. apply (good_shrink e i order Hg). lia. }
    { intros o H. by apply in_hand_off_list with (o' := o) in Hh1. }
    { intros a o Ha Hk. by destruct (in_hand_not_live s1 lv e i a o HI1 Hh1 Ha). }
    simpl.
    assert (in_hand s2 lv e i) as Hh2.
    { apply in_hand_mono with s1; [done|].
      intros k' o' H. left. by apply (on_list_same_area s1 s2). }
    destruct (split_Inv lv order e _ i s2 eq_refl HI2 Hh2 Ho)
      as (s3 & lg & -> & HI3 & Hh3 & Hp3 & Hlen & Hev & Hon3 & Hfl3 & Hch3).
    simpl.
    assert (∀ k, page_at s3 k = page_at s2 k) as Hpg3.
    { intros k. unfold page_at. by rewrite Hp3. }
    rewrite Hpg3, Hpe2. simpl.
    exists s3, lg. split; [done|].
    split.
    { apply Inv_cons_live; [done..|]. intros q. rewrite Hpg3, Hpe2.
      intros [= <-]. simpl. lia. }
    split; [done|].
    split.
    { rewrite Hfl3 by lia. unfold free_list. rewrite Hfa2. apply Hl1. }
    split; [done|]. split; [done|]. split; [done|].
    split; [done|]. split.
    { intros _. split; [by rewrite Hpg3|].
      intros k Hk. rewrite Hpg3, Hpo2 by done. apply Hpg1. }
    intros HM. apply (split_no_free_buddies s2 s3 lv e i order HI2 Hh2 Ho Hch3).
    intros k' o' H1%(on_list_same_area s1 s2) Ho' H2%(on_list_same_area s1 s2); [|done..].
    by apply (HM1 HM k' o').
Qed.

Lemma alloc_scan_empty order s n :
  ∀ i, Z.to_nat (MAX_ORDER + 1 - i) = n →
  (∀ o, i ≤ o ≤ MAX_ORDER → free_list s o = Some []) →
  alloc_scan i order s = Some (None, s, []).
Proof.
  induction n as [|n IH]; intros i Hn Hall; rewrite alloc_scan_eq.
  - replace (i <=? MAX_ORDER) with false by (symmetry; apply Z.leb_gt; lia). done.
  - replace (i <=? MAX_ORDER) with true by (symmetry; apply Z.leb_le; lia).
    rewrite Hall by lia. apply IH; [lia|]. intros o Ho. apply Hall. lia.
Qed.

Lemma alloc_scan_first order s k e l n :
  ∀ i, Z.to_nat (k - i) = n → i ≤ k ≤ MAX_ORDER →
  (∀ o, i ≤ o < k → free_list s o = Some []) →
  free_list s k = Some (e :: l) →
  alloc_scan i order s = alloc_take k order e s.
Proof.
  induction n as [|n IH]; intros i Hn Hk Hall Hfl; rewrite alloc_scan_eq;
    (replace (i <=? MAX_ORDER) with true by (symmetry; apply Z.leb_le; lia)).
  - assert (i = k) as -> by lia. by rewrite Hfl.
  - rewrite Hall by lia. apply IH; [lia|lia| |done]. intros o Ho. apply Hall. lia.
Qed.

(** Either every list from [i] up is empty or there is a first one that is not. *)
Lemma scan_cases s n :
  length (free_area s) = Z.to_nat (MAX_ORDER + 1) →
  ∀ i, Z.to_nat (MAX_ORDER + 1 - i) = n → MIN_ORDER ≤ i →
  (∀ o, i ≤ o ≤ MAX_ORDER → free_list s o = Some []) ∨
  (∃ k e l, i ≤ k ≤ MAX_ORDER ∧ (∀ o, i ≤ o < k → free_list s o = Some []) ∧
            free_list s k = Some (e :: l)).
Proof.
  intros Hl. induction n as [|n IH]; intros i Hn Hi.
  - left. intros o Ho. lia.
  - destruct (free_list_is_Some s i Hl) as [[|e l] Hfl]; [lia| |].
    + destruct (IH (i + 1)) as [Hall|(k & e & l & Hk & Hall & Hfl')]; [lia..| |].
      * left. intros o Ho. destruct (decide (o = i)) as [->|]; [done|]. apply Hall. lia.
      * right. exists k, e, l. split; [lia|]. split; [|done].
        intros o Ho. destruct (decide (o = i)) as [->|]; [done|]. apply Hall. lia.
    + right. exists i, e, l. split; [lia|]. split; [intros; lia|done].
Qed.

(** ** buddy_free: the search for the buddy *)

Lemma list_scan_spec s target l :
  (∀ e, e ∈ l → ∃ p, page_at s e = Some p ∧ block_address p = PAGE_TO_ADDR e) →
  ∀ acc, ∃ r, list_scan s target l acc = Some r ∧
    ((∃ e, e ∈ l ∧ PAGE_TO_ADDR e = target ∧ r = Some e) ∨
     ((∀ e, e ∈ l → PAGE_TO_ADDR e ≠ target) ∧ (r = acc ∨ ∃ e, e ∈ l ∧ r = Some e))).
Proof.
  induction l as [|x l IH]; intros Hp acc; simpl.
  - exists acc. split; [done|]. right. split; [by intros e ?%elem_of_nil|auto].
  - destruct (Hp x) as (p & -> & Ha); [by left|]. simpl.
    destruct (decide (block_address p = target)) as [E|E].
    + exists (Some x). split; [done|]. left. exists x. split; [by left|]. split; congruence.
    + destruct (IH (λ e He, Hp e (list_elem_of_further _ _ _ He)) (Some x))
        as (r & -> & [(e & He & Ht & ->)|[Hno Hr]]).
      * exists (Some e). split; [done|]. left. exists e. split; [by right|done].
      * exists r. split; [done|]. right. split.
        -- intros e [->|He]%elem_of_cons; [congruence|auto].
        -- right. destruct Hr as [->|(e & He & ->)].
           ++ exists x. split; [by left|done].
           ++ exists e. split; [by right|done].
Qed.

Lemma free_insert_Inv s lv k i :
  Inv s lv → in_hand s lv k i →
  ∃ s', free_insert i k s = Some (s', [Release k i]) ∧ Inv s' lv ∧
    (∀ k' o', on_list s' k' o' ↔ (k' = k ∧ o' = i) ∨ on_list s k' o').
Proof.
  intros HI Hh. pose proof Hh as (Hg & _).
  pose proof (good_page _ _ Hg) as Hk.
  destruct (set_block_size_Inv s lv k (-1) HI Hk)
    as (s1 & H1 & HI1 & Hfa1 & Hp1 & _); [by left| | |].
  { intros o Ho%on_list_range. clia. }
  { intros a o Ha _. destruct (inv_live _ _ HI _ _ Ha) as (_ & _ & (Hr & _) & _). clia. }
  assert (in_hand s1 lv k i) as Hh1.
  { apply in_hand_mono with s; [done|]. intros k' o' H. left.
    by apply (on_list_same_area s s1). }
  destruct (list_add_Inv s1 lv k i HI1 Hh1)
    as (s2 & l & H2 & HI2 & _ & _ & _ & _ & Hon2).
  { intros q. rewrite Hp1. intros [= <-]. simpl. destruct Hg. clia. }
  exists s2. unfold free_insert. rewrite H1. simpl. rewrite H2. simpl.
  split; [done|]. split; [done|].
  intros k' o'. rewrite Hon2. by rewrite (on_list_same_area s s1).
Qed.

Lemma free_loop_Inv lv n :
  ∀ i cur s, Z.to_nat (MAX_ORDER + 1 - i) = n →
  Inv s lv → in_hand s lv cur i →
  ∃ s' lg, free_loop i (PAGE_TO_ADDR cur) cur s = Some (s', lg) ∧
           released lv s i cur n s' lg.
Proof.
  induction n as [|n IH]; intros i cur s Hn HI Hh; pose proof Hh as (Hg & Hf & Hlv);
    pose proof Hg as (Hi & Hc0 & Hc1 & Hal).
  { lia. }
  pose proof (good_page _ _ Hg) as Hc.
  rewrite free_loop_eq.
  replace (i <=? MAX_ORDER) with true by (symmetry; apply Z.leb_le; lia).
  destruct (free_list_is_Some s i (inv_nheads _ _ HI) Hi) as [l Hl]. rewrite Hl. simpl.
  assert (∀ e, e ∈ l → ∃ p, page_at s e = Some p ∧ block_address p = PAGE_TO_ADDR e) as Hpl.
  { intros e He. assert (on_list s e i) as Hon by by exists l.
    destruct (inv_free _ _ HI _ _ Hon) as [Hge _].
    destruct (page_at_is_Some s e (inv_npages _ _ HI) (good_page _ _ Hge)) as [p Hp].
    exists p. split; [done|]. by apply (inv_pages _ _ HI). }
  destruct (free_insert_Inv s lv cur i HI Hh) as (si & Hins & HIi & Hchi).
  assert ((∀ e, e ∈ l → PAGE_TO_ADDR e ≠ BUDDY_ADDR (PAGE_TO_ADDR cur) i) →
          ∃ s' lg, free_insert i cur s = Some (s', lg) ∧
                   released lv s i cur (S n) s' lg) as Hinsert.
  { intros Hno. exists si, [Release cur i]. split; [done|]. split; [done|].
    split; [unfold steps; simpl; lia|]. split.
    - (* the block linked has no free buddy, and is the buddy of no free block *)
      assert (i < MAX_ORDER → ¬ on_list s (buddy_page cur i) i) as Hnb.
      { intros Hlt (l' & Hl' & Hin). assert (l' = l) as -> by congruence.
        apply (Hno _ Hin). by rewrite BUDDY_ADDR_page by (done || lia). }
      intros HM k' o' [[-> ->]|H1]%Hchi Ho' [[E Eo]|H2]%Hchi.
      + by destruct (buddy_page_invol cur i Hg Ho') as [_ ?].
      + by apply Hnb.
      + subst o'. destruct (inv_free _ _ HI _ _ H1) as [Hg' _].
        destruct (buddy_page_invol k' i Hg' Ho') as [Hinv _].
        rewrite E in Hinv. apply (Hnb Ho'). by rewrite Hinv.
      + by apply (HM k' o').
    - exists cur, i. split; [constructor|]. split; [apply Hchi; auto|]. lia. }
  destruct (list_scan_spec s (BUDDY_ADDR (PAGE_TO_ADDR cur) i) l Hpl None)
    as (r & -> & [(b & Hb & Hbt & ->)|[Hno Hr]]); simpl.
  - (* the buddy is on the list *)
    destruct (Hpl b Hb) as (pb & -> & Hpa). simpl.
    rewrite decide_False by (intros H; apply H; congruence).
    assert (i < MAX_ORDER) as Hlt.
    { destruct (decide (i = MAX_ORDER)) as [->|]; [|lia].
      assert (on_list s b MAX_ORDER) as Hon by by exists l.
      destruct (inv_free _ _ HI _ _ Hon) as [Hgb _].
      by destruct (BUDDY_ADDR_top cur b Hc (good_page _ _ Hgb)). }
    rewrite BUDDY_ADDR_page in Hbt by (done || lia).
    apply PAGE_TO_ADDR_inj in Hbt. subst b.
    destruct (good_merge cur i Hg Hlt) as (Hgb & Hgm & Hne & Hcmp & Hap).
    assert (Z.min cur (buddy_page cur i) ≤ cur ∧
            cur + block_pages i ≤ Z.min cur (buddy_page cur i) + block_pages (i + 1)) as Hin.
    { rewrite block_pages_succ by lia. pose proof (block_pages_pos i ltac:(lia)).
      unfold buddy_page. destruct (decide _); lia. }
    set (b := buddy_page cur i) in *. cbv zeta in Hgm, Hap.
    assert (on_list s b i) as Hon by by exists l.
    destruct (list_del_Inv s lv b i HI Hon)
      as (s1 & l0 & -> & HI1 & Hp1 & Hhb & _ & _ & _ & Hon1). simpl.
    assert (in_hand s1 lv (Z.min cur b) (i + 1)) as Hhm.
    { split; [done|]. split.
      - intros k' o' Hk'. pose proof (on_list_range _ _ _ Hk') as Hr.
        apply Hon1 in Hk' as [Hk' Hd]. apply Hap; [lia|by apply Hf|].
        apply (inv_ff _ _ HI); [done..|]. destruct Hd; auto.
      - intros a o' Ha.
        destruct (inv_live _ _ HI _ _ Ha) as (_ & _ & (Hr & _) & _).
        apply Hap; [lia|by eapply Hlv|]. by eapply (inv_fl _ _ HI). }
    assert (∃ s' lg, (if decide (PAGE_TO_ADDR cur > block_address pb)
                      then free_loop (i + 1) (block_address pb)
                             (to_int (ADDR_TO_PAGE (block_address pb))) s1
                      else free_loop (i + 1) (PAGE_TO_ADDR cur) cur s1) = Some (s', lg) ∧
                     released lv s1 (i + 1) (Z.min cur b) n s' lg)
      as (s' & lg & -> & HI' & Hst & HM' & m & f & Htr & Hmf & Hm1 & Hm2).
    { rewrite Hpa.
      assert (ADDR_TO_PAGE (PAGE_TO_ADDR b) = b) as ->
        by (apply ADDR_TO_PAGE_TO_ADDR; by eapply good_page).
      rewrite to_int_small by by eapply good_page.
      destruct (decide (PAGE_TO_ADDR cur > PAGE_TO_ADDR b)) as [Hgt|Hgt].
      - apply Hcmp in Hgt. replace (Z.min cur b) with b in * by lia.
        apply IH; [lia|done..].
      - replace (Z.min cur b) with cur in * by (rewrite Hcmp in Hgt; lia).
        apply IH; [lia|done..]. }
    simpl. exists s', (Merge b i :: lg). split; [done|]. split; [done|].
    split; [unfold steps in *; simpl; lia|]. split.
    + intros HM. apply HM'. intros k' o' [H1 _]%Hon1 Ho' [H2 _]%Hon1.
      by apply (HM k' o').
    + exists m, f. split; [by constructor|]. split; [done|]. lia.
  - (* no node of the list is the buddy *)
    destruct Hr as [->|(e & He & ->)]; [by apply Hinsert|].
    destruct (Hpl e He) as (pe & -> & Hpe). simpl.
    rewrite decide_True; [by apply Hinsert|]. rewrite Hpe. by apply Hno.
Qed.

(** ** Releasing a block the caller holds *)

Lemma held_give_back a o lv :
  all_apart lv → held a lv = Some o →
  (a, o) ∈ lv ∧
  (∀ a' o', (a', o') ∈ give_back a lv →
     (a', o') ∈ lv ∧ apart (ADDR_TO_PAGE a) o (ADDR_TO_PAGE a') o') ∧
  all_apart (give_back a lv).
Proof.
  induction lv as [|[a1 o1] lv IH]; simpl; [done|]. intros [H1 Hll] Hh.
  destruct (decide (a1 = a)) as [->|Hne].
  - injection Hh as ->. split; [by left|]. split; [|done].
    intros a' o' H. split; [by right|]. by apply H1.
  - destruct (IH Hll Hh) as (Hin & Hgb & Hap).
    split; [by right|]. split.
    + intros a' o' [[= -> ->]|H]%elem_of_cons.
      * split; [by left|]. apply apart_sym. by apply H1.
      * destruct (Hgb _ _ H). split; [by right|done].
    + simpl. split; [|done]. intros a' o' H. apply H1. by apply Hgb.
Qed.

Lemma Inv_sublive s lv lv' :
  Inv s lv → (∀ b, b ∈ lv' → b ∈ lv) → all_apart lv' → Inv s lv'.
Proof.
  intros HI Hsub Hap. split; try apply HI; [| |done].
  - intros a o H. by apply (inv_live _ _ HI), Hsub.
  - intros k o a o' Hon H. by apply (inv_fl _ _ HI), Hsub.
Qed.

Lemma buddy_free_Inv s lv a o :
  Inv s lv → held a lv = Some o →
  ∃ p, page_at s (ADDR_TO_PAGE a) = Some p ∧
    ((block_size p = -1 ∧ buddy_free a s = None) ∨
     (MIN_ORDER ≤ block_size p ≤ o ∧
      ∃ s' lg, buddy_free a s = Some (s', lg) ∧
        released (give_back a lv) s (block_size p) (ADDR_TO_PAGE a)
                 (Z.to_nat (MAX_ORDER + 1 - block_size p)) s' lg)).
Proof.
  intros HI Hh.
  destruct (held_give_back a o lv (inv_ll _ _ HI) Hh) as (Hin & Hgb & Hap).
  destruct (inv_live _ _ HI _ _ Hin) as (k & -> & Hg & Hsz).
  pose proof (good_page _ _ Hg) as Hk.
  rewrite (ADDR_TO_PAGE_TO_ADDR k Hk) in *.
  destruct (page_at_is_Some s k (inv_npages _ _ HI) Hk) as [p Hp].
  exists p. split; [done|].
  unfold buddy_free. rewrite (ADDR_TO_PAGE_TO_ADDR k Hk), (to_int_small k Hk), Hp. simpl.
  destruct (inv_pages _ _ HI _ _ Hp) as (_ & _ & [E|[Hr Hal]]).
  - left. split; [done|]. rewrite E, free_loop_eq. done.
  - right. specialize (Hsz p Hp). split; [lia|].
    assert (Inv s (give_back (PAGE_TO_ADDR k) lv)) as HI'.
    { apply Inv_sublive with lv; [done| |done]. intros [a' o'] H. by apply Hgb. }
    assert (in_hand s (give_back (PAGE_TO_ADDR k) lv) k (block_size p)) as Hh'.
    { apply in_hand_shrink with o; [|lia]. split; [done|]. split.
      - intros k' o' Hon. apply apart_sym.
        rewrite <- (ADDR_TO_PAGE_TO_ADDR k Hk). by apply (inv_fl _ _ HI).
      - intros a' o' H. by apply Hgb. }
    destruct (free_loop_Inv _ _ (block_size p) k s eq_refl HI' Hh')
      as (s' & lg & -> & Hrel).
    by exists s', lg.
Qed.

(** ** buddy_alloc on a state of a run *)

Lemma buddy_alloc_Inv s lv size :
  Inv s lv →
  (buddy_alloc size s = Some (None, s, []) ∧
   ∀ o, order_exp size ≤ o ≤ MAX_ORDER → free_list s o = Some []) ∨
  (∃ i e l s' lg,
     order_exp size ≤ i ≤ MAX_ORDER ∧
     (∀ o, order_exp size ≤ o < i → free_list s o = Some []) ∧
     free_list s i = Some (e :: l) ∧
     buddy_alloc size s = Some (Some (PAGE_TO_ADDR e), s', Take e i :: lg) ∧
     Inv s' ((PAGE_TO_ADDR e, order_exp size) :: lv) ∧
     in_hand s' lv e (order_exp size) ∧
     free_list s' i = Some l ∧
     length lg = Z.to_nat (i - order_exp size) ∧
     (∀ ev, ev ∈ lg → ∃ j, order_exp size ≤ j < i ∧ ev = SplitOff (e + block_pages j) j) ∧
     (∀ j, order_exp size ≤ j < i → on_list s' (e + block_pages j) j) ∧
     (i = order_exp size → g_pages s' = g_pages s) ∧
     (i ≠ order_exp size →
        page_at s' e = Some (mk_page (order_exp size) e (PAGE_TO_ADDR e)) ∧
        ∀ k, k ≠ e → page_at s' k = page_at s k) ∧
     (no_free_buddies s → no_free_buddies s')).
Proof.
  intros HI. pose proof (order_exp_range size) as Ho. unfold buddy_alloc. cbv zeta.
  destruct (scan_cases s _ (inv_nheads _ _ HI) (order_exp size) eq_refl)
    as [Hall|(i & e & l & Hi & Hall & Hfl)]; [lia| |].
  - left. split; [|done]. by apply alloc_scan_empty with (n := Z.to_nat (MAX_ORDER + 1 - order_exp size)).
  - right. rewrite (alloc_scan_first _ s i e l _ _ eq_refl Hi Hall Hfl).
    destruct (alloc_take_Inv s lv i (order_exp size) e l HI Hfl)
      as (s' & lg & Ht & H); [lia|].
    exists i, e, l, s', lg. done.
Qed.

(** ** The free lists after buddy_alloc *)

Lemma split_lists k target n :
  ∀ j s s' lg, Z.to_nat (j - target) = n → good k j → MIN_ORDER ≤ target ≤ j →
  length (free_area s) = Z.to_nat (MAX_ORDER + 1) →
  split j target k s = Some (s', lg) →
  ∀ o, free_list s' o =
       if decide (target ≤ o < j) then (λ l, (k + block_pages o) :: l) <$> free_list s o
       else free_list s o.
Proof.
  induction n as [|n IH]; intros j s s' lg Hn Hg Ht Hlen; rewrite split_eq.
  - rewrite decide_True by lia. intros [= <- <-] o. by rewrite decide_False by lia.
  - rewrite decide_False by lia. cbv zeta.
    rewrite (split_right_page k j Hg) by lia. unfold list_add.
    destruct (page_at s _) as [p|]; [|done]. simpl.
    destruct (free_list s (j - 1)) as [l|] eqn:Hl; [|done]. simpl.
    set (s1 := set_free_list (j - 1) ((k + block_pages (j - 1)) :: l) s).
    destruct (split (j - 1) target k s1) as [[s2 lg2]|] eqn:E; [|done].
    intros [= <- <-] o.
    assert (MIN_ORDER ≤ j - 1 ≤ MAX_ORDER) as Hr by (destruct Hg; lia).
    assert (length (free_area s1) = Z.to_nat (MAX_ORDER + 1)) as Hlen1
      by (simpl; by rewrite length_insert).
    rewrite (IH (j - 1) s1 s2 lg2 ltac:(lia) (good_shrink k j (j - 1) Hg ltac:(lia))
               ltac:(lia) Hlen1 E o).
    unfold s1.
    rewrite (free_list_set s (j - 1) _ o Hlen Hr).
    destruct (decide (o = j - 1)) as [->|Hne].
    + rewrite decide_False, decide_True by lia. by rewrite Hl.
    + destruct (decide (target ≤ o < j - 1)); [by rewrite decide_True by lia|].
      by rewrite decide_False by lia.
Qed.

Lemma alloc_take_lists s lv i order e l r s' lg :
  Inv s lv → free_list s i = Some (e :: l) → MIN_ORDER ≤ order < i →
  alloc_take i order e s = Some (r, s', lg) →
  ∀ o, free_list s' o =
       if decide (o = i) then Some l
       else if decide (order ≤ o < i)
            then (λ l, (e + block_pages o) :: l) <$> free_list s o
            else free_list s o.
Proof.
  intros HI Hfl Ho.
  assert (on_list s e i) as Hon by (exists (e :: l); split; [done|by left]).
  destruct (inv_free _ _ HI _ _ Hon) as [Hg _].
  pose proof (good_page _ _ Hg) as He.
  destruct (page_at_is_Some s e (inv_npages _ _ HI) He) as [p Hp].
  destruct (inv_pages _ _ HI _ _ Hp) as (Hpi & _ & _).
  pose proof (inv_nheads _ _ HI) as Hlen.
  pose proof (free_list_range _ _ _ Hfl) as Hi.
  unfold alloc_take. rewrite decide_False by lia. rewrite Hp. simpl.
  unfold list_del. rewrite Hfl. simpl. rewrite decide_True by done. rewrite Hpi.
  destruct (set_block_size e order _) as [s2|] eqn:Hs2; [|done]. simpl.
  assert (free_area s2 = free_area (set_free_list i l s)) as Hfa.
  { unfold set_block_size in Hs2. destruct (page_at _ e); [|done].
    by injection Hs2 as <-. }
  destruct (split i order e s2) as [[s3 lg3]|] eqn:E; [|done]. simpl.
  destruct (page_at s3 e); [|done]. simpl. intros [= <- <- <-] o.
  assert (length (free_area s2) = Z.to_nat (MAX_ORDER + 1)) as Hlen2
    by (rewrite Hfa; simpl; by rewrite length_insert).
  rewrite (split_lists e order _ i s2 s3 lg3 eq_refl Hg ltac:(lia) Hlen2 E o).
  assert (∀ o', free_list s2 o' = if decide (o' = i) then Some l else free_list s o') as H2.
  { intros o'. rewrite <- (free_list_set s i l o' Hlen Hi). unfold free_list. by rewrite Hfa. }
  rewrite H2. destruct (decide (o = i)) as [->|Hne]; [by rewrite decide_False by lia|].
  done.
Qed.

Lemma alloc_take_exact_lists s i e l r s' lg :
  length (free_area s) = Z.to_nat (MAX_ORDER + 1) → free_list s i = Some (e :: l) →
  alloc_take i i e s = Some (r, s', lg) →
  ∀ o, free_list s' o = if decide (o = i) then Some l else free_list s o.
Proof.
  intros Hlen Hfl. pose proof (free_list_range _ _ _ Hfl) as Hi.
  unfold alloc_take. rewrite decide_True by done.
  unfold list_del. rewrite Hfl. simpl. rewrite decide_True by done.
  destruct (page_at _ e); [|done]. simpl. intros [= <- <- <-] o.
  by apply free_list_set.
Qed.

(** ** Every state of a run satisfies the invariant *)

Lemma fresh_free_list o l :
  free_list fresh_state o = Some l → l = [] ∨ (o = MAX_ORDER ∧ l = [0]).
Proof.
  intros H. pose proof (free_list_range _ _ _ H) as Ho.
  each_order Ho; vm_compute in H; injection H as <-; auto.
Qed.

Lemma fresh_pages k p :
  page_at fresh_state k = Some p →
  p = mk_page (if decide (k = 0) then MAX_ORDER else -1) k (PAGE_TO_ADDR k).
Proof.
  intros H.
  assert (0 ≤ k < 0 + 256) as Hk by (by apply page_at_range in H).
  assert (Forall (λ k, page_at fresh_state k =
            Some (mk_page (if decide (k = 0) then MAX_ORDER else -1) k (PAGE_TO_ADDR k)))
          (seqZ 0 256)) as HF.
  { refine (bool_decide_unpack _ _). vm_compute. exact I. }
  apply (forall_range _ _ _ HF) in Hk. congruence.
Qed.

Lemma Inv_fresh : Inv fresh_state [].
Proof.
  assert (∀ k o, on_list fresh_state k o → k = 0 ∧ o = MAX_ORDER) as Hon.
  { intros k o (l & [->|[-> ->]]%fresh_free_list & Hk).
    - by apply elem_of_nil in Hk.
    - by apply list_elem_of_singleton in Hk. }
  split.
  - reflexivity.
  - intros k p ->%fresh_pages. simpl. split; [done|]. split; [done|].
    destruct (decide (k = 0)) as [->|]; [|auto]. right. split; [done|]. reflexivity.
  - reflexivity.
  - intros i Hi. change (Z.to_nat MIN_ORDER) with 12%nat in Hi.
    do 12 (destruct i as [|i]; [reflexivity|]). lia.
  - intros o l [->|[_ ->]]%fresh_free_list; [constructor|]. apply NoDup_singleton.
  - intros k o [-> ->]%Hon. split.
    + split; [done|]. split; [done|]. split; reflexivity.
    + intros p ->%fresh_pages. simpl. done.
  - by intros a o ?%elem_of_nil.
  - intros k1 o1 k2 o2 [-> ->]%Hon [-> ->]%Hon [?|?]; done.
  - by intros k o a o' _ ?%elem_of_nil.
  - done.
Qed.

Lemma do_call_Inv c w w' :
  Inv (st w) (live w) → do_call c w = Ran w' → Inv (st w') (live w').
Proof.
  intros HI. destruct c as [size|addr]; simpl.
  - destruct (buddy_alloc_Inv (st w) (live w) size HI)
      as [[-> _]|(i & e & l & s' & lg & _ & _ & _ & -> & HI' & _)].
    + by intros [= <-].
    + by intros [= <-].
  - destruct (held addr (live w)) as [o|] eqn:Hh; [|done].
    destruct (buddy_free_Inv (st w) (live w) addr o HI Hh)
      as (p & _ & [[_ ->]|(_ & s' & lg & -> & HI' & _)]); [done|].
    by intros [= <-].
Qed.

Lemma do_call_no_free_buddies c w w' :
  Inv (st w) (live w) → do_call c w = Ran w' →
  no_free_buddies (st w) → no_free_buddies (st w').
Proof.
  intros HI. destruct c as [size|addr]; simpl.
  - destruct (buddy_alloc_Inv (st w) (live w) size HI)
      as [[-> _]|(i & e & l & s' & lg & _ & _ & _ & -> & _ & _ & _ & _ & _ & _ & _ & _ & HM)].
    + by intros [= <-].
    + intros [= <-]. exact HM.
  - destruct (held addr (live w)) as [o|] eqn:Hh; [|done].
    destruct (buddy_free_Inv (st w) (live w) addr o HI Hh)
      as (p & _ & [[_ ->]|(_ & s' & lg & -> & _ & _ & HM & _)]); [done|].
    intros [= <-]. exact HM.
Qed.

Lemma exec_Inv cs :
  ∀ w w', Inv (st w) (live w) → exec cs w = Ran w' → Inv (st w') (live w').
Proof.
  induction cs as [|c cs IH]; intros w w' HI; simpl.
  - by intros [= <-].
  - destruct (do_call c w) as [w1| |] eqn:E; [|done..].
    apply IH. by eapply do_call_Inv.
Qed.

Lemma reachable_Inv w : reachable w → Inv (st w) (live w).
Proof. intros [cs H]. eapply exec_Inv; [|exact H]. apply Inv_fresh. Qed.

Lemma exec_no_free_buddies cs :
  ∀ w w', Inv (st w) (live w) → no_free_buddies (st w) → exec cs w = Ran w' →
  no_free_buddies (st w').
Proof.
  induction cs as [|c cs IH]; intros w w' HI HM; simpl.
  - by intros [= <-].
  - destruct (do_call c w) as [w1| |] eqn:E; [|done..].
    apply IH; [by eapply do_call_Inv|by eapply do_call_no_free_buddies].
Qed.

(** In a run no two free blocks of the same order are buddies of each
    other. *)
Lemma run_no_free_buddies w : reachable w → no_free_buddies (st w).
Proof.
  intros [cs H]. apply (exec_no_free_buddies cs fresh w Inv_fresh); [|exact H].
  intros k i (l & [->|[-> ->]]%fresh_free_list & Hk) Hi; [|lia].
  by apply elem_of_nil in Hk.
Qed.

(** X11: a release that returns, in a run: its merges go through the
    orders one by one from the order recorded, the block is then linked on
    one free list and on no other, the page released lies in it, and no two
    free blocks are buddies. *)
Lemma run_release_post w a o s' lg :
  reachable w → held a (live w) = Some o → buddy_free a (st w) = Some (s', lg) →
  no_free_buddies s' ∧
  ∃ p m f, page_at (st w) (ADDR_TO_PAGE a) = Some p ∧
    merge_trace (block_size p) lg m f ∧ on_list s' m f ∧
    (∀ f', on_list s' m f' → f' = f) ∧
    m ≤ ADDR_TO_PAGE a < m + block_pages f.
Proof.
  intros Hw Hh E. pose proof (reachable_Inv w Hw) as HI.
  destruct (buddy_free_Inv (st w) (live w) a o HI Hh)
    as (p & Hp & [[_ E']|(Hr & s1 & lg1 & E' & HI' & _ & HM & m & f & Htr & Hon & Hm1 & Hm2)]);
    rewrite E' in E; [done|]. injection E as <- <-.
  split; [by apply HM, run_no_free_buddies|].
  exists p, m, f. split; [done|]. split; [done|]. split; [done|]. split.
  - intros f' Hon'. destruct (decide (f' = f)) as [|Hne]; [done|].
    exfalso. apply (apart_irrefl m f f').
    + by destruct (on_list_range _ _ _ Hon).
    + by destruct (on_list_range _ _ _ Hon').
    + apply (inv_ff _ _ HI'); auto.
  - pose proof (block_pages_pos (block_size p) ltac:(lia)). lia.
Qed.

Lemma run_release_post_witness :
  ∃ w s' lg p m f, exec [Alloc 8192; Alloc 4096] fresh = Ran w ∧
    buddy_free 8192 (st w) = Some (s', lg) ∧
    no_free_buddies s' ∧
    page_at (st w) (ADDR_TO_PAGE 8192) = Some p ∧
    merge_trace (block_size p) lg m f ∧ on_list s' m f ∧
    (∀ f', on_list s' m f' → f' = f) ∧
    m ≤ ADDR_TO_PAGE 8192 < m + block_pages f.
Proof.
  eexists _, _, _.
  match goal with
  |- ∃ p m f, exec ?cs _ = Ran ?w ∧ buddy_free _ _ = Some (?s', ?lg) ∧ _ =>
    assert (exec cs fresh = Ran w) as Hrun by (vm_compute; reflexivity);
    assert (buddy_free 8192 (st w) = Some (s', lg)) as Hf by (vm_compute; reflexivity);
    destruct (run_release_post w 8192 12 s' lg) as (HM & p & m & f & Hp & Htr & Hon & Hone & Hm)
  end.
  - by exists [Alloc 8192; Alloc 4096].
  - vm_compute. reflexivity.
  - exact Hf.
  - exists p, m, f.
    exact (conj Hrun (conj Hf (conj HM (conj Hp (conj Htr (conj Hon (conj Hone Hm))))))).
Defined.

(** In a run, free blocks are well placed, and no free block shares a page
    with another free block or with a block the caller holds. *)
Lemma run_blocks_apart w :
  reachable w →
  (∀ k o, on_list (st w) k o → good k o) ∧
  (∀ k1 o1 k2 o2, on_list (st w) k1 o1 → on_list (st w) k2 o2 →
     k1 ≠ k2 ∨ o1 ≠ o2 → apart k1 o1 k2 o2) ∧
  (∀ k o a o', on_list (st w) k o → (a, o') ∈ live w → apart k o (ADDR_TO_PAGE a) o').
Proof.
  intros HI%reachable_Inv. split; [|split].
  - intros k o H. by apply (inv_free _ _ HI).
  - apply (inv_ff _ _ HI).
  - apply (inv_fl _ _ HI).
Qed.

(** X15: in a run, the order recorded for a held block is -1 or lies
    between [MIN_ORDER] and the order of the request: a release never takes
    the block for a larger one than was handed out. *)
Lemma run_recorded_order w a o :
  reachable w → (a, o) ∈ live w →
  ∃ p, page_at (st w) (ADDR_TO_PAGE a) = Some p ∧
       (block_size p = -1 ∨ MIN_ORDER ≤ block_size p ≤ o).
Proof.
  intros HI%reachable_Inv Ha.
  destruct (inv_live _ _ HI _ _ Ha) as (k & -> & Hg & Hsz).
  pose proof (good_page _ _ Hg) as Hk.
  rewrite (ADDR_TO_PAGE_TO_ADDR k Hk).
  destruct (page_at_is_Some (st w) k (inv_npages _ _ HI) Hk) as [p Hp].
  exists p. split; [done|].
  destruct (inv_pages _ _ HI _ _ Hp) as (_ & _ & [E|[Hr _]]); [auto|].
  right. specialize (Hsz p Hp). lia.
Qed.

Lemma run_recorded_order_witness :
  ∃ w p, exec (take 6 stale_order_calls) fresh = Ran w ∧ (8192, 13) ∈ live w ∧
    page_at (st w) (ADDR_TO_PAGE 8192) = Some p ∧
    (block_size p = -1 ∨ MIN_ORDER ≤ block_size p ≤ 13).
Proof.
  eexists.
  match goal with |- ∃ p, exec ?cs _ = Ran ?w ∧ _ =>
    assert (exec cs fresh = Ran w) as Hrun by (vm_compute; reflexivity);
    assert ((8192, 13) ∈ live w) as Hin by apply list_elem_of_here;
    destruct (run_recorded_order w 8192 13) as (p & Hp & Hr)
  end.
  - by exists (take 6 stale_order_calls).
  - exact Hin.
  - exists p. exact (conj Hrun (conj Hin (conj Hp Hr))).
Defined.

(** * Properties of the allocator *)

Lemma block_bytes_pages o :
  MIN_ORDER ≤ o ≤ MAX_ORDER → block_bytes o = block_pages o * PAGE_SIZE.
Proof. intros Ho. each_order Ho; reflexivity. Qed.

Lemma steps_split_all lg :
  (∀ ev, ev ∈ lg → ∃ k j, ev = SplitOff k j) → steps is_split lg = length lg.
Proof.
  unfold steps. induction lg as [|ev lg IH]; intros H; [done|].
  destruct (H ev) as (k & j & ->); [by left|]. simpl. f_equal.
  apply IH. intros ev' Hev. apply H. by right.
Qed.

Lemma buddy_init_reset s :
  length (free_area s) = Z.to_nat (MAX_ORDER + 1) →
  (∀ i, (i < Z.to_nat MIN_ORDER)%nat → free_area s !! i = Some []) →
  buddy_init s = fresh_state.
Proof.
  intros Hlen Hlow. unfold fresh_state, buddy_init. cbv zeta. f_equal.
  destruct s as [fa pg]. simpl in *.
  change (Z.to_nat (MAX_ORDER + 1)) with 21%nat in Hlen.
  change (Z.to_nat MIN_ORDER) with 12%nat in Hlow.
  do 21 (destruct fa as [|? fa]; [discriminate|]).
  destruct fa; [|discriminate].
  pose proof (Hlow 0%nat ltac:(lia)) as [= ->].
  pose proof (Hlow 1%nat ltac:(lia)) as [= ->].
  pose proof (Hlow 2%nat ltac:(lia)) as [= ->].
  pose proof (Hlow 3%nat ltac:(lia)) as [= ->].
  pose proof (Hlow 4%nat ltac:(lia)) as [= ->].
  pose proof (Hlow 5%nat ltac:(lia)) as [= ->].
  pose proof (Hlow 6%nat ltac:(lia)) as [= ->].
  pose proof (Hlow 7%nat ltac:(lia)) as [= ->].
  pose proof (Hlow 8%nat ltac:(lia)) as [= ->].
  pose proof (Hlow 9%nat ltac:(lia)) as [= ->].
  pose proof (Hlow 10%nat ltac:(lia)) as [= ->].
  pose proof (Hlow 11%nat ltac:(lia)) as [= ->].
  reflexivity.
Qed.

(** ** Initialisation *)

(** C4: after [buddy_init] every free list is empty except that of
    [MAX_ORDER], which holds page 0 alone; page 0 records the order
    [MAX_ORDER] and every other page records -1; and [buddy_init] run from
    any state of a run gives this same state again. *)
Theorem buddy_init_resets :
  (∀ o, MIN_ORDER ≤ o < MAX_ORDER → free_list fresh_state o = Some []) ∧
  free_list fresh_state MAX_ORDER = Some [0] ∧
  block_size <$> page_at fresh_state 0 = Some MAX_ORDER ∧
  (∀ k, 0 < k < PAGE_NUM → block_size <$> page_at fresh_state k = Some (-1)) ∧
  (∀ w, reachable w → buddy_init (st w) = fresh_state).
Proof.
  split; [|split; [|split; [|split]]].
  - intros o Ho. assert (MIN_ORDER ≤ o ≤ MAX_ORDER) as Hr by lia.
    each_order Hr; try reflexivity. clia.
  - reflexivity.
  - reflexivity.
  - intros k Hk.
    destruct (page_at_is_Some fresh_state k eq_refl) as [p Hp]; [lia|].
    rewrite Hp. apply fresh_pages in Hp as ->. simpl.
    by rewrite decide_False by lia.
  - intros w Hw%reachable_Inv. apply buddy_init_reset; apply Hw.
Qed.

Lemma buddy_init_resets_witness :
  ∃ w, exec [Alloc 5000; Alloc 4096] fresh = Ran w ∧
       free_list (st w) MAX_ORDER = Some [] ∧
       buddy_init (st w) = fresh_state.
Proof.
  eexists. split; [vm_compute; reflexivity|]. split; [vm_compute; reflexivity|].
  apply (proj2 (proj2 (proj2 (proj2 buddy_init_resets)))).
  exists [Alloc 5000; Alloc 4096]. vm_compute. reflexivity.
Defined.

(** ** Allocation *)

(** C3: in a state of a run, [buddy_alloc] looks at the free lists from
    the order of the request up to [MAX_ORDER] included and takes the first
    node of the first list that is not empty; when all these lists are
    empty it returns NULL and the state is unchanged.  After [buddy_init],
    a first request of 600000 bytes returns the arena base and a second
    one returns NULL. *)
Theorem alloc_takes_first_nonempty_list w size :
  reachable w → 1 ≤ size ≤ MEMORY_AREA →
  ((∀ i, order_exp size ≤ i ≤ MAX_ORDER → free_list (st w) i = Some []) →
   buddy_alloc size (st w) = Some (None, st w, [])) ∧
  (∀ k e l, order_exp size ≤ k ≤ MAX_ORDER →
     (∀ i, order_exp size ≤ i < k → free_list (st w) i = Some []) →
     free_list (st w) k = Some (e :: l) →
     ∃ s' lg, buddy_alloc size (st w) = Some (Some (PAGE_TO_ADDR e), s', Take e k :: lg) ∧
              free_list s' k = Some l) ∧
  (∃ s1 lg, buddy_alloc 600000 fresh_state = Some (Some 0, s1, lg) ∧
            buddy_alloc 600000 s1 = Some (None, s1, [])).
Proof.
  intros HI%reachable_Inv Hsize. split; [|split].
  - intros Hall. unfold buddy_alloc. cbv zeta.
    by apply alloc_scan_empty with (n := Z.to_nat (MAX_ORDER + 1 - order_exp size)).
  - intros k e l Hk Hall Hfl. unfold buddy_alloc. cbv zeta.
    rewrite (alloc_scan_first _ (st w) k e l _ _ eq_refl Hk Hall Hfl).
    destruct (alloc_take_Inv (st w) (live w) k (order_exp size) e l HI Hfl)
      as (s' & lg & Ht & _ & _ & Hl & _).
    { pose proof (order_exp_range size). lia. }
    by exists s', lg.
  - eexists _, _. split; [vm_compute; reflexivity|]. vm_compute. reflexivity.
Qed.

Lemma alloc_takes_first_nonempty_list_witness :
  ∃ s' lg, buddy_alloc 600000 (st fresh) = Some (Some (PAGE_TO_ADDR 0), s', Take 0 20 :: lg) ∧
           free_list s' 20 = Some [].
Proof.
  assert (reachable fresh) as H by (exists []; reflexivity).
  assert (1 ≤ 600000 ≤ MEMORY_AREA) as Hs by (vm_compute; split; discriminate).
  refine (proj1 (proj2 (alloc_takes_first_nonempty_list fresh 600000 H Hs)) 20 0 [] _ _ _).
  - vm_compute. split; discriminate.
  - intros i Hi. change (order_exp 600000) with 20 in Hi. lia.
  - reflexivity.
Defined.

(** C5: an address returned by [buddy_alloc] in a run lies in the arena,
    is a multiple of the block length [2^order_exp(size)], and the block
    that starts there shares no byte with a block the caller still holds. *)
Theorem alloc_block_aligned_and_disjoint w size a s' lg :
  reachable w → buddy_alloc size (st w) = Some (Some a, s', lg) →
  0 ≤ a ∧ a + block_bytes (order_exp size) ≤ MEMORY_AREA ∧
  a mod block_bytes (order_exp size) = 0 ∧
  ∀ a' o', (a', o') ∈ live w →
    a + block_bytes (order_exp size) ≤ a' ∨ a' + block_bytes o' ≤ a.
Proof.
  intros HI%reachable_Inv Ha.
  destruct (buddy_alloc_Inv (st w) (live w) size HI)
    as [[E _]|(i & e & l & s1 & lg1 & _ & _ & _ & E & _ & Hh & _)];
    rewrite E in Ha; [done|]. injection Ha as <- <- <-.
  destruct Hh as ((Ho & He0 & He1 & Hal) & _ & Hlv).
  rewrite block_bytes_pages by done.
  unfold aligned in Hal. unfold PAGE_TO_ADDR.
  pose proof (block_pages_pos (order_exp size) ltac:(lia)) as Hpos.
  assert (0 < PAGE_SIZE) as Hps by done.
  split; [lia|]. split; [rewrite PAGE_NUM_val in He1; clia|].
  split; [rewrite Z.mul_mod_distr_r by lia; lia|].
  intros a' o' Ha'. specialize (Hlv _ _ Ha').
  destruct (inv_live _ _ HI _ _ Ha') as (k' & -> & Hg' & _).
  pose proof Hg' as (Ho' & _).
  rewrite ADDR_TO_PAGE_TO_ADDR in Hlv by (by eapply good_page).
  rewrite (block_bytes_pages o') by done.
  unfold apart in Hlv. unfold PAGE_TO_ADDR. nia.
Qed.

Lemma alloc_block_aligned_and_disjoint_witness :
  ∃ w, exec [Alloc 5000] fresh = Ran w ∧ live w = [(0, 13)] ∧
    0 ≤ 8192 ∧ 8192 + block_bytes (order_exp 5000) ≤ MEMORY_AREA ∧
    8192 mod block_bytes (order_exp 5000) = 0 ∧
    ∀ a' o', (a', o') ∈ live w →
      8192 + block_bytes (order_exp 5000) ≤ a' ∨ a' + block_bytes o' ≤ 8192.
Proof.
  eexists. split; [vm_compute; reflexivity|]. split; [reflexivity|].
  eapply (alloc_block_aligned_and_disjoint _ 5000 8192).
  - exists [Alloc 5000]. vm_compute. reflexivity.
  - vm_compute. reflexivity.
Defined.

(** After [buddy_init], a request of 5000 bytes links page 2 on the list of
    order 13 and its record still holds -1. *)
Lemma alloc_records_orders_fails : ¬ alloc_records_orders fresh_state 5000.
Proof.
  intros H.
  assert (∃ s' lg, buddy_alloc 5000 fresh_state = Some (Some 0, s', lg) ∧
                   SplitOff 2 13 ∈ lg ∧
                   block_size <$> page_at s' 2 = Some (-1)) as (s' & lg & E & Hin & Hb).
  { eexists _, _. split; [vm_compute; reflexivity|].
    split; [|vm_compute; reflexivity].
    do 7 apply list_elem_of_further. apply list_elem_of_here. }
  destruct (H _ _ _ E) as [Hs _].
  destruct (Hs 2 13 Hin) as [_ Hb']. congruence.
Qed.

(** C6 (amended): in a run, a [buddy_alloc] that returns a block took the
    first node [e] of the first non-empty list, of some order [k] from the
    order [o] of the request up; it made exactly [k - o] splits; for every
    order [j] from [o] to [k - 1] the upper half at page
    [e + block_pages j] is then the one node of the free list of order [j],
    with its page record left as it was; the list of order [k] lost its
    first node and every other free list is as before; and whenever
    [k > o] the record of the block returned holds [o]. *)
Theorem split_links_upper_halves w size a s' lg :
  reachable w → buddy_alloc size (st w) = Some (Some a, s', lg) →
  ∃ k e l,
    order_exp size ≤ k ≤ MAX_ORDER ∧
    a = PAGE_TO_ADDR e ∧ ADDR_TO_PAGE a = e ∧
    (∀ j, order_exp size ≤ j < k → free_list (st w) j = Some []) ∧
    free_list (st w) k = Some (e :: l) ∧
    free_list s' k = Some l ∧
    steps is_split lg = Z.to_nat (k - order_exp size) ∧
    (∀ j, order_exp size ≤ j < k →
       free_list s' j = Some [e + block_pages j] ∧
       page_at s' (e + block_pages j) = page_at (st w) (e + block_pages j)) ∧
    (∀ j, ¬ (order_exp size ≤ j ≤ k) → free_list s' j = free_list (st w) j) ∧
    (∀ page j, SplitOff page j ∈ lg →
       order_exp size ≤ j < k ∧ page = e + block_pages j) ∧
    (order_exp size < k →
     block_size <$> page_at s' e = Some (order_exp size)).
Proof.
  intros HI%reachable_Inv Ha.
  pose proof (order_exp_range size) as Ho.
  destruct (buddy_alloc_Inv (st w) (live w) size HI)
    as [[E _]|(i & e & l & s1 & lg1 & Hi & Hall & Hfl & E & _ & Hh & Hl1 & Hlen &
               Hev & _ & _ & Hdiff & _)];
    rewrite E in Ha; [done|]. injection Ha as <- <- <-.
  assert (0 ≤ e < PAGE_NUM) as He by (eapply good_page; apply Hh).
  assert (steps is_split (Take e i :: lg1) = length lg1) as Hsteps.
  { change (steps is_split (Take e i :: lg1)) with (steps is_split lg1).
    apply steps_split_all. intros ev Hin. destruct (Hev _ Hin) as (j & _ & ->). eauto. }
  unfold buddy_alloc in E. cbv zeta in E.
  rewrite (alloc_scan_first _ (st w) i e l _ _ eq_refl Hi Hall Hfl) in E.
  exists i, e, l. split; [done|]. split; [done|].
  split; [by apply ADDR_TO_PAGE_TO_ADDR|]. split; [done|]. split; [done|].
  split; [done|]. split; [by rewrite Hsteps|].
  split; [|split; [|split]].
  - intros j Hj.
    assert (MIN_ORDER ≤ order_exp size < i) as Hoi by lia.
    pose proof (alloc_take_lists _ _ _ _ _ _ _ _ _ HI Hfl Hoi E j) as Hlj.
    rewrite decide_False, decide_True, (Hall j) in Hlj by lia.
    split; [exact Hlj|].
    destruct (Hdiff ltac:(lia)) as [_ Hpo]. apply Hpo.
    pose proof (block_pages_pos j ltac:(lia)). lia.
  - intros j Hj. destruct (decide (i = order_exp size)) as [Heq|Hne].
    + rewrite Heq in E, Hfl.
      rewrite (alloc_take_exact_lists _ _ _ _ _ _ _ (inv_nheads _ _ HI) Hfl E j).
      by rewrite decide_False by lia.
    + assert (MIN_ORDER ≤ order_exp size < i) as Hoi by lia.
      rewrite (alloc_take_lists _ _ _ _ _ _ _ _ _ HI Hfl Hoi E j).
      by rewrite !decide_False by lia.
  - intros page j [[=]|Hin]%elem_of_cons.
    by destruct (Hev _ Hin) as (j' & Hj' & [= -> ->]).
  - intros Hlt. destruct (Hdiff ltac:(lia)) as [-> _]. done.
Qed.

Lemma split_links_upper_halves_witness :
  ∃ w s' lg, exec [Alloc 300000] fresh = Ran w ∧
    buddy_alloc 5000 (st w) = Some (Some 524288, s', lg) ∧
    steps is_split lg = 6%nat ∧
    free_list (st w) 19 = Some [128] ∧
    free_list s' 19 = Some [] ∧
    free_list s' 13 = Some [130] ∧
    free_list s' 18 = Some [192] ∧
    page_at s' 130 = page_at (st w) 130 ∧
    block_size <$> page_at s' 128 = Some 13.
Proof.
  eexists _, _, _.
  match goal with
  |- exec ?cs _ = Ran ?w ∧ buddy_alloc _ _ = Some (_, ?s', ?lg) ∧ _ =>
    assert (exec cs fresh = Ran w) as Hrun by (vm_compute; reflexivity);
    assert (buddy_alloc 5000 (st w) = Some (Some 524288, s', lg)) as Ha
      by (vm_compute; reflexivity);
    assert (reachable w) as Hw by (by exists cs);
    destruct (split_links_upper_halves w 5000 524288 s' lg Hw Ha)
      as (k & e & l & Hk & Hae & _ & Hall & Hfl & Hfl' & Hst & Hup & _ & _ & Hrec)
  end.
  change (order_exp 5000) with 13 in *.
  assert (e = 128) as -> by (unfold PAGE_TO_ADDR in Hae; rewrite PAGE_SIZE_val in Hae; lia).
  assert (k = 19) as ->.
  { assert (MIN_ORDER ≤ k ≤ MAX_ORDER) as Hr by (unfold MIN_ORDER; lia).
    each_order Hr; vm_compute in Hfl; try discriminate Hfl. reflexivity. }
  assert (l = []) as ->.
  { vm_compute in Hfl. by injection Hfl as <-. }
  destruct (Hup 13 ltac:(lia)) as [H13 Hp13].
  destruct (Hup 18 ltac:(lia)) as [H18 _].
  specialize (Hrec ltac:(lia)).
  refine (conj Hrun (conj Ha (conj Hst (conj Hfl (conj Hfl' (conj H13 (conj H18
            (conj Hp13 Hrec)))))))).
Defined.

(** ** Allocation followed by release *)

(** For a request of one page the record of page 0 ends at -1, not at
    [MAX_ORDER]. *)
Lemma round_trip_restores_fails : ¬ round_trip_restores 4096.
Proof.
  intros (a & s1 & lg1 & s2 & lg2 & H1 & H2 & H3).
  vm_compute in H1. injection H1 as <- <- <-.
  vm_compute in H2. injection H2 as <- <-.
  apply (f_equal (λ s, block_size <$> page_at s 0)) in H3.
  vm_compute in H3. discriminate.
Qed.

(** C8 (amended): after [buddy_init], for every valid size, a request
    followed by the release of its block gives back the free lists as they
    were, and leaves every page record as it was except that page 0 now
    records -1. *)
Theorem round_trip_restores_free_lists size :
  1 ≤ size ≤ MEMORY_AREA →
  ∃ a s1 lg1 s2 lg2,
    buddy_alloc size fresh_state = Some (Some a, s1, lg1) ∧
    buddy_free a s1 = Some (s2, lg2) ∧
    free_area s2 = free_area fresh_state ∧
    g_pages s2 = <[0%nat := mk_page (-1) 0 (PAGE_TO_ADDR 0)]> (g_pages fresh_state).
Proof.
  intros _. unfold buddy_alloc. cbv zeta.
  pose proof (order_exp_range size) as Ho. revert Ho.
  generalize (order_exp size). intros o Ho.
  each_order Ho; eexists _, _, _, _, _;
    (split; [vm_compute; reflexivity|]);
    (split; [vm_compute; reflexivity|]);
    split; vm_compute; reflexivity.
Qed.

Lemma round_trip_restores_free_lists_witness :
  ∃ a s1 lg1 s2 lg2,
    buddy_alloc 5000 fresh_state = Some (Some a, s1, lg1) ∧
    buddy_free a s1 = Some (s2, lg2) ∧
    free_area s2 = free_area fresh_state ∧
    g_pages s2 = <[0%nat := mk_page (-1) 0 (PAGE_TO_ADDR 0)]> (g_pages fresh_state).
Proof.
  apply (round_trip_restores_free_lists 5000).
  vm_compute. split; discriminate.
Defined.

(** ** Bounds on the work of a call *)

(** X16: in a run, [buddy_alloc] returns after at most
    [MAX_ORDER - order_exp size] splits, which is at most
    [MAX_ORDER - MIN_ORDER]; and [buddy_free] of a held block either
    returns after at most [MAX_ORDER] minus the recorded order merges,
    which is at most [MAX_ORDER - MIN_ORDER], or reads the order -1 from the
    page record and faults on [free_area[-1]]. *)
Theorem calls_are_bounded w :
  reachable w →
  (∀ size, ∃ r s' lg, buddy_alloc size (st w) = Some (r, s', lg) ∧
     (steps is_split lg ≤ Z.to_nat (MAX_ORDER - order_exp size))%nat ∧
     (steps is_split lg ≤ Z.to_nat (MAX_ORDER - MIN_ORDER))%nat) ∧
  (∀ a o, held a (live w) = Some o →
     (∃ p s' lg, page_at (st w) (ADDR_TO_PAGE a) = Some p ∧
        buddy_free a (st w) = Some (s', lg) ∧
        (steps is_merge lg ≤ Z.to_nat (MAX_ORDER - block_size p))%nat ∧
        (steps is_merge lg ≤ Z.to_nat (MAX_ORDER - MIN_ORDER))%nat) ∨
     (buddy_free a (st w) = None ∧
      block_size <$> page_at (st w) (ADDR_TO_PAGE a) = Some (-1))).
Proof.
  intros HI%reachable_Inv. split.
  - intros size. pose proof (order_exp_range size) as Ho.
    destruct (buddy_alloc_Inv (st w) (live w) size HI)
      as [[E _]|(i & e & l & s1 & lg1 & Hi & _ & _ & E & _ & _ & _ & Hlen & Hev & _)];
      rewrite E.
    + eexists _, _, _. split; [done|]. unfold steps. simpl. lia.
    + eexists _, _, _. split; [done|].
      change (steps is_split (Take e i :: lg1)) with (steps is_split lg1).
      rewrite steps_split_all; [lia|].
      intros ev Hin. destruct (Hev _ Hin) as (j & _ & ->). eauto.
  - intros a o Hh.
    destruct (buddy_free_Inv (st w) (live w) a o HI Hh)
      as (p & Hp & [[Hs E]|(Hr & s' & lg & E & _ & Hst & _)]).
    + right. split; [done|]. by rewrite Hp, <- Hs.
    + left. exists p, s', lg. split; [done|]. split; [done|]. clia.
Qed.

Lemma calls_are_bounded_witness :
  ∃ w, exec [Alloc 8192; Alloc 4096] fresh = Ran w ∧
    (∃ r s' lg, buddy_alloc 4096 (st w) = Some (r, s', lg) ∧
       (steps is_split lg ≤ Z.to_nat (MAX_ORDER - order_exp 4096))%nat ∧
       (steps is_split lg ≤ Z.to_nat (MAX_ORDER - MIN_ORDER))%nat) ∧
    ((∃ p s' lg, page_at (st w) (ADDR_TO_PAGE 8192) = Some p ∧
        buddy_free 8192 (st w) = Some (s', lg) ∧
        (steps is_merge lg ≤ Z.to_nat (MAX_ORDER - block_size p))%nat ∧
        (steps is_merge lg ≤ Z.to_nat (MAX_ORDER - MIN_ORDER))%nat) ∨
     (buddy_free 8192 (st w) = None ∧
      block_size <$> page_at (st w) (ADDR_TO_PAGE 8192) = Some (-1))).
Proof.
  eexists.
  match goal with |- exec ?cs _ = Ran ?w ∧ _ =>
    assert (exec cs fresh = Ran w) as Hrun by (vm_compute; reflexivity);
    assert (reachable w) as H by (by exists cs);
    assert (held 8192 (live w) = Some 12) as Hh by (vm_compute; reflexivity);
    destruct (calls_are_bounded w H) as [Ha Hf];
    exact (conj Hrun (conj (Ha 4096) (Hf 8192 12 Hh)))
  end.
Defined.

(** ** Where the code departs from the spec *)

(** C1: the run [stale_order_calls] uses [buddy_free] only on addresses it
    holds and no call faults, yet at its end page 3 belongs to no free
    block and to no held block: the blocks do not tile the arena. *)
Theorem stale_order_breaks_tiling :
  ∃ w, exec stale_order_calls fresh = Ran w ∧ owners w 3 = 0%nat ∧ ¬ tiles w.
Proof.
  eexists. split; [vm_compute; reflexivity|]. split; [vm_compute; reflexivity|].
  intros H. unfold tiles in H.
  assert (0 ≤ 3 < PAGE_NUM) as H3 by (rewrite PAGE_NUM_val; lia).
  apply H in H3. vm_compute in H3. discriminate.
Qed.

(** C2: the sizes 0 and [MEMORY_AREA + 1] are outside the valid range, yet
    after [buddy_init] [buddy_alloc] returns the arena base for both and
    changes the state. *)
Theorem alloc_accepts_invalid_sizes :
  invalid_size 0 = true ∧ invalid_size (MEMORY_AREA + 1) = true ∧
  (∃ s' lg, buddy_alloc 0 fresh_state = Some (Some 0, s', lg) ∧ s' ≠ fresh_state) ∧
  (∃ s' lg, buddy_alloc (MEMORY_AREA + 1) fresh_state = Some (Some 0, s', lg) ∧
            s' ≠ fresh_state).
Proof.
  split; [reflexivity|]. split; [reflexivity|].
  split; eexists _, _; (split; [vm_compute; reflexivity|]);
    intros H; apply (f_equal (λ s, free_list s MAX_ORDER)) in H;
    vm_compute in H; discriminate.
Qed.

(** C7: after [buddy_init] and two requests of one page, [buddy_free] of
    the second block faults before it links the block on any free list;
    and at the end of the run [stale_order_calls] the block released last,
    of order 13 at page 2, was linked on the list of order 12 without any
    merge, so that its page 3 lies in no free block. *)
Theorem release_leaves_block_off_the_lists :
  (∃ w,
     exec [Alloc 4096; Alloc 4096] fresh = Ran w ∧
     held 4096 (live w) = Some 12 ∧
     buddy_free 4096 (st w) = None) ∧
  (∃ w s' lg,
     exec (take 6 stale_order_calls) fresh = Ran w ∧
     held 8192 (live w) = Some 13 ∧
     buddy_free 8192 (st w) = Some (s', lg) ∧
     lg = [Release 2 12] ∧
     Forall (λ b, covers 3 b = false) (free_blocks s')).
Proof.
  split.
  - eexists. split; [vm_compute; reflexivity|].
    split; vm_compute; reflexivity.
  - eexists _, _, _. split; [vm_compute; reflexivity|].
    split; [vm_compute; reflexivity|]. split; [vm_compute; reflexivity|].
    split; [reflexivity|].
    refine (bool_decide_unpack _ _). vm_compute. exact I.
Qed.

(** C10: after [buddy_init] and two requests of one page, the second block
    is held by the caller with order 12, its page record holds -1, and
    [buddy_free] of it faults on [free_area[-1]]. *)
Theorem free_reads_order_out_of_range :
  ∃ w,
    exec [Alloc 4096; Alloc 4096] fresh = Ran w ∧
    held 4096 (live w) = Some 12 ∧
    block_size <$> page_at (st w) (ADDR_TO_PAGE 4096) = Some (-1) ∧
    free_list (st w) (-1) = None ∧
    buddy_free 4096 (st w) = None.
Proof.
  eexists. split; [vm_compute; reflexivity|].
  repeat split; vm_compute; reflexivity.
Qed.

(** C9: after [buddy_init] and two requests of one page, the caller holds
    the second block, and its release makes an out-of-bounds access and
    returns nothing: the run of the three calls does not come to an end. *)
Theorem release_of_held_block_does_not_return :
  ∃ w,
    exec [Alloc 4096; Alloc 4096] fresh = Ran w ∧
    held 4096 (live w) = Some 12 ∧
    do_call (Free 4096) w = Crashed ∧
    exec [Alloc 4096; Alloc 4096; Free 4096] fresh = Crashed.
Proof.
  eexists. split; [vm_compute; reflexivity|].
  repeat split; vm_compute; reflexivity.
Qed.

(** * Further properties of the code *)

(** ** order_exp *)

Lemma order_loop_char size n :
  ∀ o, Z.to_nat (MAX_ORDER - o) = n → MIN_ORDER ≤ o ≤ MAX_ORDER →
  (size ≤ block_bytes (order_loop o size) ∨ order_loop o size = MAX_ORDER) ∧
  ∀ o', o ≤ o' < order_loop o size → block_bytes o' < size.
Proof.
  unfold block_bytes.
  induction n as [|n IH]; intros o Hn Ho; rewrite order_loop_eq;
    rewrite Z.shiftl_1_l.
  - assert (o = MAX_ORDER) as -> by lia.
    rewrite Z.ltb_irrefl, andb_false_r. split; [by right|]. intros; lia.
  - destruct (Z.ltb_spec (2 ^ o) size) as [Hlt|Hge]; simpl.
    + destruct (Z.ltb_spec o MAX_ORDER) as [Hlo|Hhi].
      * destruct (IH (o + 1)) as [Hfit Hleast]; [lia..|].
        split; [done|]. intros o' Ho'.
        destruct (decide (o' = o)) as [->|]; [done|]. apply Hleast. lia.
      * assert (o = MAX_ORDER) as -> by lia. split; [by right|]. intros; lia.
    + split; [by left|]. intros; lia.
Qed.

(** X1: for every size, [order_exp] lies between [MIN_ORDER] and
    [MAX_ORDER] and no smaller order has a block that holds the request;
    the block of the order returned holds every request up to
    [MEMORY_AREA], and a larger request gets [MAX_ORDER]. *)
Theorem order_exp_least_fit size :
  MIN_ORDER ≤ order_exp size ≤ MAX_ORDER ∧
  (∀ o, MIN_ORDER ≤ o < order_exp size → block_bytes o < size) ∧
  (size ≤ MEMORY_AREA → size ≤ block_bytes (order_exp size)) ∧
  (MEMORY_AREA < size → order_exp size = MAX_ORDER).
Proof.
  pose proof (order_exp_range size) as Hr.
  destruct (order_loop_char size _ MIN_ORDER eq_refl) as [Hfit Hleast]; [clia|].
  fold (order_exp size) in Hfit, Hleast.
  split; [done|]. split; [done|]. split.
  - intros Hs. destruct Hfit as [|E]; [done|]. rewrite E. exact Hs.
  - intros Hs. destruct (decide (order_exp size = MAX_ORDER)) as [|Hne]; [done|].
    destruct Hfit as [Hfit|]; [|done]. exfalso.
    assert (block_bytes (order_exp size) ≤ block_bytes MAX_ORDER).
    { apply Z.pow_le_mono_r; [lia|]. lia. }
    change (block_bytes MAX_ORDER) with MEMORY_AREA in *. lia.
Qed.

Lemma order_exp_least_fit_witness :
  order_exp 5000 = 13 ∧ block_bytes 12 < 5000 ∧ 5000 ≤ block_bytes (order_exp 5000).
Proof.
  split; [reflexivity|].
  destruct (order_exp_least_fit 5000) as (_ & Hleast & Hfit & _).
  split; [apply (Hleast 12)|apply Hfit].
  - change (order_exp 5000) with 13. clia.
  - clia.
Defined.

(** X2: a larger request never gets a smaller order. *)
Theorem order_exp_monotone size1 size2 :
  size1 ≤ size2 → order_exp size1 ≤ order_exp size2.
Proof.
  intros Hle.
  pose proof (order_exp_range size1) as Hr1.
  pose proof (order_exp_range size2) as Hr2.
  destruct (order_loop_char size1 _ MIN_ORDER eq_refl) as [_ Hleast1]; [clia|].
  destruct (order_loop_char size2 _ MIN_ORDER eq_refl) as [Hfit2 _]; [clia|].
  fold (order_exp size1) in Hleast1. fold (order_exp size2) in Hfit2.
  destruct (decide (order_exp size1 ≤ order_exp size2)) as [|Hgt]; [done|].
  exfalso. destruct Hfit2 as [Hfit2|E]; [|lia].
  specialize (Hleast1 (order_exp size2)). lia.
Qed.

Lemma order_exp_monotone_witness : order_exp 4097 ≤ order_exp 70000.
Proof. apply order_exp_monotone. lia. Defined.

(** ** merge *)

Lemma merge_eq node_del order addr s :
  merge node_del order addr s =
  if decide (order = MAX_ORDER) then Some s
  else if decide (0 ≤ order + 1 < 31) then
    match page_at s (ADDR_TO_PAGE (BUDDY_ADDR addr (order + 1))) with
    | None => None
    | Some _ =>
        match node_del (ADDR_TO_PAGE (BUDDY_ADDR addr (order + 1))) s with
        | None => None
        | Some s1 => merge node_del (order + 1) addr s1
        end
    end
  else None.
Proof.
  rewrite merge_equation_1.
  destruct (decide (order = MAX_ORDER)); [reflexivity|]. cbn.
  destruct (decide (0 ≤ order + 1 < 31)); [|reflexivity]. cbn.
  destruct (page_at s _); [|reflexivity]. cbn.
  destruct (node_del _ s); reflexivity.
Qed.

Lemma lxor_high_bit a e : 0 ≤ e → 0 ≤ a < 2 ^ e → Z.lxor a (2 ^ e) = a + 2 ^ e.
Proof.
  intros He Ha. symmetry. apply Z.add_nocarry_lxor.
  apply Z.bits_inj'. intros n Hn. rewrite Z.land_spec, Z.bits_0.
  rewrite Z.pow2_bits_eqb by done.
  destruct (Z.eqb_spec e n) as [<-|]; [|apply andb_false_r].
  rewrite andb_true_r. apply Z.testbit_false; [done|].
  by rewrite Z.div_small.
Qed.

(** The buddy address of an order from [MAX_ORDER] on lies past the last
    page. *)
Lemma BUDDY_ADDR_outside s addr e :
  length (g_pages s) = Z.to_nat PAGE_NUM → 0 ≤ addr < MEMORY_AREA →
  MAX_ORDER ≤ e < 31 →
  page_at s (ADDR_TO_PAGE (BUDDY_ADDR addr e)) = None.
Proof.
  intros Hlen Ha He. unfold BUDDY_ADDR, ADDR_TO_PAGE.
  rewrite MEMORY_AREA_val in Ha. unfold MAX_ORDER in He.
  assert (2 ^ 20 ≤ 2 ^ e ≤ 2 ^ 30) as Hp.
  { split; apply Z.pow_le_mono_r; lia. }
  rewrite Z.shiftl_1_l. unfold ulong at 2. rewrite (Z.mod_small addr) by lia.
  rewrite lxor_high_bit by lia.
  unfold ulong. rewrite Z.mod_small by lia.
  unfold page_at. rewrite PAGE_SIZE_val. rewrite PAGE_NUM_val in Hlen.
  assert (256 ≤ (addr + 2 ^ e) / 4096) by (Z.div_mod_to_equations; lia).
  destruct (decide _); [|done]. apply lookup_ge_None. lia.
Qed.

(** X3: [merge] returns, with the state as it was, only when called with
    [MAX_ORDER]; with any other order and an address of the arena it
    faults, on a shift count out of range or on a page record past the end
    of [g_pages]. *)
Theorem merge_faults_below_top node_del order addr s :
  (∀ k s0 s1, node_del k s0 = Some s1 → g_pages s1 = g_pages s0) →
  length (g_pages s) = Z.to_nat PAGE_NUM → 0 ≤ addr < MEMORY_AREA →
  merge node_del order addr s = if decide (order = MAX_ORDER) then Some s else None.
Proof.
  intros Hdel Hlen Ha.
  destruct (decide (order = MAX_ORDER)) as [->|Hne].
  { by rewrite merge_eq, decide_True. }
  destruct (decide (MAX_ORDER < order)) as [Hhi|Hlo].
  { rewrite merge_eq, decide_False by done.
    destruct (decide _) as [Hs|]; [|done].
    by rewrite BUDDY_ADDR_outside by (done || lia). }
  assert (order < MAX_ORDER) as Hlt by lia. clear Hne Hlo.
  remember (Z.to_nat (MAX_ORDER - order)) as n eqn:Hn.
  revert order s Hlen Hlt Hn.
  induction n as [|n IH]; intros order s Hlen Hlt Hn; [lia|].
  rewrite merge_eq, decide_False by lia.
  destruct (decide _) as [Hs|]; [|done].
  destruct (decide (order + 1 = MAX_ORDER)) as [E|Hne].
  { by rewrite BUDDY_ADDR_outside by (done || lia). }
  destruct (page_at s _); [|done].
  destruct (node_del _ s) as [s1|] eqn:E; [|done].
  apply IH; [|lia..]. by rewrite (Hdel _ _ _ E).
Qed.

Lemma merge_faults_below_top_witness :
  merge (λ _ s, Some s) MIN_ORDER 8192 fresh_state = None ∧
  merge (λ _ s, Some s) MAX_ORDER 8192 fresh_state = Some fresh_state.
Proof.
  split.
  - apply (merge_faults_below_top (λ _ s, Some s) MIN_ORDER 8192 fresh_state).
    + intros k s0 s1 H. by injection H as <-.
    + reflexivity.
    + rewrite MEMORY_AREA_val. lia.
  - apply (merge_faults_below_top (λ _ s, Some s) MAX_ORDER 8192 fresh_state).
    + intros k s0 s1 H. by injection H as <-.
    + reflexivity.
    + rewrite MEMORY_AREA_val. lia.
Defined.

(** ** The earlier version (buddy.c) *)

Lemma draft_order_loop_eq order_num size :
  Draft.order_loop order_num size =
  if (Z.shiftl 1 order_num <? size) && (order_num <=? MAX_ORDER)
  then Draft.order_loop (order_num + 1) size else order_num.
Proof.
  rewrite Draft.order_loop_equation_1.
  destruct (inspect _) as [b Hb].
  destruct b; simpl; rewrite Hb; reflexivity.
Qed.

Lemma draft_order_loop_same size n :
  ∀ o, Z.to_nat (MAX_ORDER - o) = n → MIN_ORDER ≤ o ≤ MAX_ORDER →
  size ≤ MEMORY_AREA → Draft.order_loop o size = order_loop o size.
Proof.
  induction n as [|n IH]; intros o Hn Ho Hs;
    rewrite draft_order_loop_eq, order_loop_eq, Z.shiftl_1_l.
  - assert (o = MAX_ORDER) as -> by lia.
    change (2 ^ MAX_ORDER) with MEMORY_AREA.
    replace (MEMORY_AREA <? size) with false by (symmetry; apply Z.ltb_ge; lia).
    done.
  - replace (o <=? MAX_ORDER) with true by (symmetry; apply Z.leb_le; lia).
    replace (o <? MAX_ORDER) with true by (symmetry; apply Z.ltb_lt; lia).
    destruct (_ && _); [|done]. apply IH; lia.
Qed.

Lemma draft_order_loop_over size n :
  ∀ o, Z.to_nat (MAX_ORDER + 1 - o) = n → MIN_ORDER ≤ o ≤ MAX_ORDER + 1 →
  MEMORY_AREA < size → Draft.order_loop o size = MAX_ORDER + 1.
Proof.
  induction n as [|n IH]; intros o Hn Ho Hs;
    rewrite draft_order_loop_eq, Z.shiftl_1_l.
  - assert (o = MAX_ORDER + 1) as -> by lia.
    replace (MAX_ORDER + 1 <=? MAX_ORDER) with false by done.
    by rewrite andb_false_r.
  - assert (2 ^ o ≤ 2 ^ MAX_ORDER) by (apply Z.pow_le_mono_r; lia).
    change (2 ^ MAX_ORDER) with MEMORY_AREA in *.
    replace (2 ^ o <? size) with true by (symmetry; apply Z.ltb_lt; lia).
    replace (o <=? MAX_ORDER) with true by (symmetry; apply Z.leb_le; lia).
    simpl. apply IH; lia.
Qed.

(** X4: the earlier [order_exp], whose loop runs while
    [order_num <= MAX_ORDER], agrees with the final one on every size up
    to [MEMORY_AREA]; for a larger size it returns [MAX_ORDER + 1], an
    order that has no free list. *)
Theorem draft_order_exp_overshoots size :
  (size ≤ MEMORY_AREA → Draft.order_exp size = order_exp size) ∧
  (MEMORY_AREA < size →
   Draft.order_exp size = MAX_ORDER + 1 ∧
   ∀ s, free_list s (Draft.order_exp size) = None).
Proof.
  split; intros Hs.
  - apply (draft_order_loop_same size _ MIN_ORDER eq_refl); [clia|done].
  - assert (Draft.order_exp size = MAX_ORDER + 1) as ->.
    { apply (draft_order_loop_over size _ MIN_ORDER eq_refl); [clia|done]. }
    split; [done|]. intros s. reflexivity.
Qed.

Lemma draft_order_exp_overshoots_witness :
  Draft.order_exp 5000 = order_exp 5000 ∧
  Draft.order_exp (MEMORY_AREA + 1) = MAX_ORDER + 1.
Proof.
  split.
  - apply (proj1 (draft_order_exp_overshoots 5000)). rewrite MEMORY_AREA_val. lia.
  - apply (proj2 (draft_order_exp_overshoots (MEMORY_AREA + 1))). lia.
Defined.

Lemma draft_scan_eq i order s :
  Draft.scan i order s =
  if i <? MAX_ORDER then
    match free_list s i with
    | None => None
    | Some [] => Draft.scan (i + 1) order s
    | Some (entry :: _) =>
        if decide (i = order) then
          s1 ← list_del entry i s; Some (Draft.Returned entry s1)
        else if decide (i > order) then
          s1 ← list_del entry i s; Some (Draft.Left (Some entry) s1)
        else Draft.scan (i + 1) order s
    end
  else Some (Draft.Left None s).
Proof.
  rewrite Draft.scan_equation_1.
  generalize (inspect (i <? MAX_ORDER)).
  intros [[|] Hr]; cbn; [|rewrite Hr; reflexivity].
  destruct (free_list s i) as [[|e l]|]; cbn; rewrite Hr; reflexivity.
Qed.

Lemma draft_split_spins fuel :
  ∀ order index s s', Draft.split fuel order index s ≠ Draft.Done s'.
Proof.
  induction fuel as [|fuel IH]; intros order index s s'; simpl; [done|].
  destruct (list_add _ _ s); [apply IH|done].
Qed.

Lemma draft_scan_returned n :
  ∀ i order s e s1, Z.to_nat (MAX_ORDER - i) = n →
  Draft.scan i order s = Some (Draft.Returned e s1) →
  order < MAX_ORDER ∧ ∃ l, free_list s order = Some (e :: l) ∧
    list_del e order s = Some s1.
Proof.
  induction n as [|n IH]; intros i order s e s1 Hn; rewrite draft_scan_eq.
  - replace (i <? MAX_ORDER) with false by (symmetry; apply Z.ltb_ge; lia). done.
  - destruct (Z.ltb_spec i MAX_ORDER) as [Hlt|]; [|done].
    destruct (free_list s i) as [[|e' l]|] eqn:Hl; [| |done].
    + apply IH. lia.
    + destruct (decide (i = order)) as [->|Hne].
      * destruct (list_del e' order s) as [s2|] eqn:Hd; [|done]. simpl.
        intros [= -> ->]. split; [done|]. by exists l.
      * destruct (decide (i > order)).
        -- by destruct (list_del e' i s).
        -- apply IH. lia.
Qed.

(** X5: whatever the state, the earlier [buddy_alloc] never returns an
    address of the arena: a call that returns gives NULL, for a size out of
    range and with the state as it was, or gives the address of the page
    record that heads the free list of the order of the request, which it
    unlinks.  When a larger block is found [split] calls itself with the
    same arguments, so the call does not return. *)
Theorem draft_alloc_never_returns_memory fuel node_del_init size s p s' :
  Draft.buddy_alloc fuel node_del_init size s = Draft.Done (p, s') →
  (invalid_size size = true ∧ p = Draft.Null ∧ s' = s) ∨
  (invalid_size size = false ∧
   ∃ e l, p = Draft.Page e ∧ free_list s (Draft.order_exp size) = Some (e :: l) ∧
          list_del e (Draft.order_exp size) s = Some s').
Proof.
  unfold Draft.buddy_alloc, invalid_size.
  destruct (_ || _).
  - intros [= <- <-]. by left.
  - cbv zeta. destruct (Draft.scan _ _ s) as [[e s1|[e|] s1]|] eqn:Hscan; [| |done..].
    + intros [= <- <-]. right. split; [done|].
      destruct (draft_scan_returned _ _ _ _ _ _ eq_refl Hscan) as (_ & l & Hl & Hd).
      by exists e, l.
    + destruct (page_at s1 e) as [pe|]; [|done].
      destruct (node_del_init e s1) as [s2|]; [|done].
      destruct (set_block_size e _ s2) as [s3|]; [|done].
      destruct (Draft.split fuel _ _ s3) as [s4| |] eqn:Hsp; [|done..].
      by apply draft_split_spins in Hsp.
Qed.

Lemma draft_alloc_never_returns_memory_witness :
  ∃ w s, exec [Alloc 5000] fresh = Ran w ∧
    Draft.buddy_alloc 5 (λ _ s, Some s) 300000 (st w) = Draft.Done (Draft.Page 128, s) ∧
    invalid_size 300000 = false ∧
    list_del 128 (Draft.order_exp 300000) (st w) = Some s.
Proof.
  eexists _, _. split; [vm_compute; reflexivity|].
  split; [vm_compute; reflexivity|].
  match goal with |- context [list_del _ _ ?s0 = Some ?s1] =>
    destruct (draft_alloc_never_returns_memory 5 (λ _ s, Some s) 300000 s0
                (Draft.Page 128) s1 ltac:(vm_compute; reflexivity))
      as [(H & _)|(H & e & l & Hp & Hl & Hd)]
  end; [done|].
  split; [done|]. injection Hp as <-. exact Hd.
Defined.

(** X6: after the earlier [buddy_init], the earlier [buddy_alloc] serves
    no request at all: a size out of range gets NULL and every other size
    faults.  The scan stops before [MAX_ORDER], the one list that holds a
    block, and [entry], still NULL, is dereferenced. *)
Theorem draft_first_request_faults fuel node_del_init size :
  Draft.buddy_alloc fuel node_del_init size (Draft.buddy_init boot) =
  if invalid_size size then Draft.Done (Draft.Null, Draft.buddy_init boot)
  else Draft.Fault.
Proof.
  unfold Draft.buddy_alloc, invalid_size.
  destruct (Z.leb_spec size 0) as [|Hpos]; [done|].
  destruct (Z.ltb_spec MEMORY_AREA size) as [|Hle]; [done|]. simpl.
  assert (Draft.order_exp size = order_exp size) as ->.
  { apply (draft_order_loop_same size _ MIN_ORDER eq_refl); [clia|done]. }
  pose proof (order_exp_range size) as Ho. revert Ho.
  generalize (order_exp size). intros o Ho.
  assert (∀ o, MIN_ORDER ≤ o ≤ MAX_ORDER →
            Draft.scan o o (Draft.buddy_init boot) =
            Some (Draft.Left None (Draft.buddy_init boot))) as Hscan.
  { clear. intros o Ho. each_order Ho; vm_compute; reflexivity. }
  by rewrite Hscan.
Qed.

(** ** Blocks of a run share no page *)

Lemma elem_of_free_blocks s k o : (k, o) ∈ free_blocks s ↔ on_list s k o.
Proof.
  unfold free_blocks, on_list, free_list. rewrite list_elem_of_bind. split.
  - intros (o' & [k' [[= <- <-] Hk]]%list_elem_of_fmap & Ho%elem_of_seqZ).
    rewrite decide_True by lia.
    destruct (free_area s !! Z.to_nat o) as [l|]; [by exists l|].
    by apply elem_of_nil in Hk.
  - intros (l & Hl & Hk). destruct (decide _) as [Ho|]; [|done].
    exists o. split; [|apply elem_of_seqZ; lia].
    rewrite Hl. apply list_elem_of_fmap. by exists k.
Qed.

Lemma elem_of_live_blocks lv k o :
  (k, o) ∈ live_blocks lv ↔ ∃ a, k = ADDR_TO_PAGE a ∧ (a, o) ∈ lv.
Proof.
  unfold live_blocks. rewrite list_elem_of_fmap. split.
  - intros ([a o'] & [= -> ->] & H). by exists a.
  - intros (a & -> & H). by exists (a, o).
Qed.

Lemma blocks_apart_app bs1 bs2 :
  blocks_apart bs1 → blocks_apart bs2 →
  (∀ b1 b2, b1 ∈ bs1 → b2 ∈ bs2 → apart b1.1 b1.2 b2.1 b2.2) →
  blocks_apart (bs1 ++ bs2).
Proof.
  induction bs1 as [|b bs1 IH]; simpl; [done|].
  intros [Hb H1] H2 H12. split.
  - intros b' [H|H]%elem_of_app; [by apply Hb|]. apply H12; [by left|done].
  - apply IH; [done..|]. intros b1 b2 Hb1. apply H12. by right.
Qed.

Lemma blocks_apart_fmap o l :
  NoDup l → (∀ k1 k2, k1 ∈ l → k2 ∈ l → k1 ≠ k2 → apart k1 o k2 o) →
  blocks_apart ((λ k, (k, o)) <$> l).
Proof.
  induction l as [|k l IH]; simpl; [done|].
  intros [Hk Hnd]%list.NoDup_cons Hap. split.
  - intros [k' o'] (k2 & [= -> ->] & Hk2)%list_elem_of_fmap. simpl.
    apply Hap; [by left|by right|]. intros ->. done.
  - apply IH; [done|]. intros k1 k2 H1 H2. apply Hap; by right.
Qed.

Lemma blocks_apart_bind (f : Z → list Z) os :
  NoDup os → (∀ o, o ∈ os → NoDup (f o)) →
  (∀ o1 o2 k1 k2, o1 ∈ os → o2 ∈ os → k1 ∈ f o1 → k2 ∈ f o2 →
     k1 ≠ k2 ∨ o1 ≠ o2 → apart k1 o1 k2 o2) →
  blocks_apart (o ← os; (λ k, (k, o)) <$> f o).
Proof.
  induction os as [|o os IH]; [done|].
  intros [Ho Hnd]%list.NoDup_cons Hf Hap. rewrite bind_cons.
  apply blocks_apart_app.
  - apply blocks_apart_fmap; [apply Hf; by left|].
    intros k1 k2 H1 H2 Hne. apply Hap; auto; by left.
  - apply IH; [done| |].
    + intros o' H. apply Hf. by right.
    + intros o1 o2 k1 k2 H1 H2. apply Hap; by right.
  - intros [k1 o1] [k2 o2] (k & [= -> ->] & Hk)%list_elem_of_fmap
      (o' & (k' & [= -> ->] & Hk')%list_elem_of_fmap & Ho')%list_elem_of_bind.
    simpl. apply Hap; [by left|by right|done..|]. right. intros ->. done.
Qed.

Lemma blocks_apart_live lv : all_apart lv → blocks_apart (live_blocks lv).
Proof.
  induction lv as [|[a o] lv IH]; simpl; [done|]. intros [Ha Hl]. split; [|auto].
  intros [k' o'] (a' & -> & H)%elem_of_live_blocks. simpl. by apply Ha.
Qed.

Lemma Inv_blocks_apart s lv :
  Inv s lv → blocks_apart (free_blocks s ++ live_blocks lv).
Proof.
  intros HI.
  assert (∀ o, o ∈ seqZ MIN_ORDER (MAX_ORDER - MIN_ORDER + 1) →
            free_list s o = Some (default [] (free_area s !! Z.to_nat o))) as Hfl.
  { intros o Ho%elem_of_seqZ. unfold free_list. rewrite decide_True by lia.
    destruct (free_list_is_Some s o (inv_nheads _ _ HI)) as [l Hl]; [lia|].
    unfold free_list in Hl. rewrite decide_True in Hl by lia. by rewrite Hl. }
  apply blocks_apart_app.
  - apply blocks_apart_bind.
    + apply NoDup_seqZ.
    + intros o Ho. apply (inv_nodup _ _ HI o). by apply Hfl.
    + intros o1 o2 k1 k2 Ho1 Ho2 Hk1 Hk2. apply (inv_ff _ _ HI).
      * eexists. split; [by apply Hfl|done].
      * eexists. split; [by apply Hfl|done].
  - apply blocks_apart_live, HI.
  - intros [k o] [k' o'] Hf%elem_of_free_blocks (a & -> & Hl)%elem_of_live_blocks.
    simpl. by apply (inv_fl _ _ HI).
Qed.

Lemma Inv_blocks_good s lv b :
  Inv s lv → b ∈ free_blocks s ++ live_blocks lv → good b.1 b.2.
Proof.
  intros HI. destruct b as [k o].
  intros [H%elem_of_free_blocks|(a & -> & H)%elem_of_live_blocks]%elem_of_app; simpl.
  - by apply (inv_free _ _ HI).
  - destruct (inv_live _ _ HI _ _ H) as (k & -> & Hg & _).
    by rewrite ADDR_TO_PAGE_TO_ADDR by (by eapply good_page).
Qed.

Lemma covers_apart p b1 b2 :
  apart b1.1 b1.2 b2.1 b2.2 → covers p b1 = true → covers p b2 = true → False.
Proof.
  unfold apart, covers.
  intros Hap [?%Z.leb_le ?%Z.ltb_lt]%andb_prop [?%Z.leb_le ?%Z.ltb_lt]%andb_prop.
  lia.
Qed.

Lemma blocks_apart_owners p bs :
  blocks_apart bs → (length (filter (λ b, covers p b = true) bs) ≤ 1)%nat.
Proof.
  induction bs as [|b bs IH]; simpl; [lia|]. intros [Hb Hbs].
  rewrite filter_cons. destruct (decide (covers p b = true)) as [Hc|]; [|auto].
  assert (filter (λ b, covers p b = true) bs = []) as ->; [|simpl; lia].
  clear IH Hbs. induction bs as [|b' bs IH]; [done|].
  rewrite filter_cons_False.
  - apply IH. intros b2 H2. apply Hb. by right.
  - intros Hc'. apply (covers_apart p b b'); [|done..]. apply Hb. by left.
Qed.

(** X7: in a run no page belongs to two blocks, free or held. *)
Theorem no_page_has_two_owners w p :
  reachable w → (owners w p ≤ 1)%nat.
Proof.
  intros HI%reachable_Inv. by apply blocks_apart_owners, Inv_blocks_apart.
Qed.

Lemma no_page_has_two_owners_witness :
  ∃ w, exec [Alloc 5000; Alloc 4096; Free 0] fresh = Ran w ∧ (owners w 2 ≤ 1)%nat.
Proof.
  eexists. split; [vm_compute; reflexivity|].
  apply no_page_has_two_owners.
  exists [Alloc 5000; Alloc 4096; Free 0]. vm_compute. reflexivity.
Defined.

(** ** Pages of the blocks of a run *)

Lemma sumZ_app {A} (f : A → Z) l1 l2 : sumZ f (l1 ++ l2) = sumZ f l1 + sumZ f l2.
Proof. unfold sumZ. induction l1 as [|x l1 IH]; simpl; lia. Qed.

Lemma sumZ_ext {A} (f g : A → Z) l :
  (∀ x, x ∈ l → f x = g x) → sumZ f l = sumZ g l.
Proof.
  unfold sumZ. induction l as [|x l IH]; intros H; simpl; [done|].
  rewrite (H x) by by left. rewrite IH; [done|]. intros y Hy. apply H. by right.
Qed.

Lemma sumZ_add {A} (f g : A → Z) l :
  sumZ (λ x, f x + g x) l = sumZ f l + sumZ g l.
Proof. unfold sumZ. induction l as [|x l IH]; simpl; lia. Qed.

Lemma sumZ_le_length {A} (f : A → Z) l :
  (∀ x, x ∈ l → f x ≤ 1) → sumZ f l ≤ Z.of_nat (length l).
Proof.
  unfold sumZ. induction l as [|x l IH]; intros H; simpl; [lia|].
  pose proof (H x ltac:(by left)).
  assert (∀ y, y ∈ l → f y ≤ 1) as H' by (intros y Hy; apply H; by right).
  specialize (IH H'). lia.
Qed.

Lemma sumZ_indicator {A} (P : A → Prop) `{∀ x, Decision (P x)} l :
  sumZ (λ x, if decide (P x) then 1 else 0) l = Z.of_nat (length (filter P l)).
Proof.
  unfold sumZ. induction l as [|x l IH]; simpl; [done|].
  rewrite filter_cons. destruct (decide (P x)); simpl; lia.
Qed.

(** Counting the pairs (page, block) with the page in the block, by pages
    and by blocks. *)
Lemma sumZ_owners (ps : list Z) (bs : list (Z * Z)) :
  sumZ (λ p, Z.of_nat (length (filter (λ b, covers p b = true) bs))) ps =
  sumZ (λ b, Z.of_nat (length (filter (λ p, covers p b = true) ps))) bs.
Proof.
  induction bs as [|b bs IH].
  - simpl. unfold sumZ. induction ps as [|p ps IHp]; simpl; [done|]. lia.
  - change (sumZ _ (b :: bs)) with
      (Z.of_nat (length (filter (λ p, covers p b = true) ps)) +
       sumZ (λ b, Z.of_nat (length (filter (λ p, covers p b = true) ps))) bs).
    rewrite <- IH, <- sumZ_indicator, <- sumZ_add.
    apply sumZ_ext. intros p _. rewrite filter_cons.
    destruct (decide (covers p b = true)); simpl length; lia.
Qed.

Lemma length_filter_all {A} (P : A → Prop) `{∀ x, Decision (P x)} l :
  (∀ x, x ∈ l → P x) → length (filter P l) = length l.
Proof.
  induction l as [|x l IH]; intros Hl; [done|].
  rewrite filter_cons_True by (apply Hl; by left). simpl. f_equal.
  apply IH. intros y Hy. apply Hl. by right.
Qed.

Lemma length_filter_none {A} (P : A → Prop) `{∀ x, Decision (P x)} l :
  (∀ x, x ∈ l → ¬ P x) → length (filter P l) = 0%nat.
Proof.
  induction l as [|x l IH]; intros Hl; [done|].
  rewrite filter_cons_False by (apply Hl; by left).
  apply IH. intros y Hy. apply Hl. by right.
Qed.

(** A well-placed block contains as many pages of the arena as its order
    says. *)
Lemma covers_count k o :
  good k o →
  Z.of_nat (length (filter (λ p, covers p (k, o) = true) (seqZ 0 PAGE_NUM))) =
  block_pages o.
Proof.
  intros (Ho & Hk0 & Hk1 & _).
  pose proof (block_pages_pos o ltac:(lia)) as Hpos.
  replace PAGE_NUM with (k + (block_pages o + (PAGE_NUM - k - block_pages o))) by lia.
  rewrite seqZ_app by lia. rewrite seqZ_app by lia.
  rewrite !filter_app, !length_app.
  rewrite length_filter_none, length_filter_all, length_filter_none.
  - rewrite length_seqZ. lia.
  - intros p Hp%elem_of_seqZ. unfold covers. simpl.
    intros [_ ?%Z.ltb_lt]%andb_prop. lia.
  - intros p Hp%elem_of_seqZ. unfold covers. simpl.
    apply andb_true_intro. split; [apply Z.leb_le|apply Z.ltb_lt]; lia.
  - intros p Hp%elem_of_seqZ. unfold covers. simpl.
    intros [?%Z.leb_le _]%andb_prop. lia.
Qed.

Lemma pages_of_apart bs :
  blocks_apart bs → (∀ b, b ∈ bs → good b.1 b.2) → pages_of bs ≤ PAGE_NUM.
Proof.
  intros Hap Hgood. unfold pages_of.
  rewrite (sumZ_ext _ (λ b, Z.of_nat (length (filter (λ p, covers p b = true)
                                                (seqZ 0 PAGE_NUM))))).
  - rewrite <- sumZ_owners.
    etransitivity; [apply sumZ_le_length|].
    + intros p _. pose proof (blocks_apart_owners p bs Hap). lia.
    + rewrite length_seqZ, PAGE_NUM_val. lia.
  - intros [k o] Hb. symmetry. apply covers_count. by apply (Hgood (k, o)).
Qed.

Lemma pages_of_fmap o (l : list Z) :
  pages_of ((λ k, (k, o)) <$> l) = Z.of_nat (length l) * block_pages o.
Proof.
  unfold pages_of, sumZ. induction l as [|k l IH]; [done|].
  cbn [fmap list_fmap foldr length snd]. rewrite IH. lia.
Qed.

Lemma dump_bytes_free s os :
  ∀ cs, (∀ o, o ∈ os → MIN_ORDER ≤ o ≤ MAX_ORDER) →
  mapM (λ o, l ← free_list s o; Some (Z.of_nat (length l), Z.shiftl 1 o / 1024)) os
    = Some cs →
  dump_bytes cs =
  pages_of (o ← os; (λ k, (k, o)) <$> default [] (free_area s !! Z.to_nat o)) * PAGE_SIZE.
Proof.
  induction os as [|o os IH]; intros cs Hos Hm; apply mapM_Some in Hm.
  - by apply Forall2_nil_inv_l in Hm as ->.
  - apply Forall2_cons_inv_l in Hm as (c & cs' & Hc & Hm & ->).
    apply mapM_Some in Hm.
    pose proof (Hos o ltac:(by left)) as Ho.
    unfold free_list in Hc. rewrite decide_True in Hc by done.
    destruct (free_area s !! Z.to_nat o) as [l|] eqn:Hl; [|done].
    simpl in Hc. injection Hc as <-.
    rewrite bind_cons. unfold pages_of. rewrite sumZ_app.
    fold (pages_of ((λ k, (k, o)) <$> default [] (Some l))).
    simpl default. rewrite pages_of_fmap.
    change (dump_bytes ((Z.of_nat (length l), Z.shiftl 1 o / 1024) :: cs'))
      with (Z.of_nat (length l) * (Z.shiftl 1 o / 1024 * 1024) + dump_bytes cs').
    rewrite (IH cs') by (done || intros o' H; apply Hos; by right).
    unfold pages_of.
    assert (Z.shiftl 1 o / 1024 * 1024 = block_pages o * PAGE_SIZE) as ->
      by (each_order Ho; reflexivity).
    rewrite Hl. simpl default. rewrite PAGE_SIZE_val. lia.
Qed.

Lemma held_bytes_pages s lv :
  Inv s lv → held_bytes lv = pages_of (live_blocks lv) * PAGE_SIZE.
Proof.
  intros HI. unfold held_bytes, pages_of, live_blocks.
  assert (∀ b, b ∈ lv → MIN_ORDER ≤ b.2 ≤ MAX_ORDER) as Hr.
  { intros [a o] H. destruct (inv_live _ _ HI _ _ H) as (_ & _ & (Ho & _) & _). done. }
  clear HI. unfold sumZ. induction lv as [|b lv IH]; [done|].
  cbn [fmap list_fmap foldr snd].
  rewrite IH by (intros b' H; apply Hr; by right).
  rewrite block_bytes_pages by (apply Hr; by left). lia.
Qed.

Lemma dump_counts_is_Some s :
  length (free_area s) = Z.to_nat (MAX_ORDER + 1) → ∃ cs, dump_counts s = Some cs.
Proof.
  intros Hlen. destruct s as [fa pg]. simpl in Hlen.
  change (Z.to_nat (MAX_ORDER + 1)) with 21%nat in Hlen.
  do 21 (destruct fa as [|? fa]; [discriminate|]).
  destruct fa; [|discriminate].
  eexists. reflexivity.
Qed.

(** X8: in a run [buddy_dump] never faults, and the bytes it reports as
    free, together with the bytes of the blocks the caller holds, never
    exceed the arena. *)
Theorem dump_accounts_within_arena w :
  reachable w →
  ∃ cs txt, dump_counts (st w) = Some cs ∧ buddy_dump (st w) = Some txt ∧
            length cs = Z.to_nat (MAX_ORDER - MIN_ORDER + 1) ∧
            dump_bytes cs + held_bytes (live w) ≤ MEMORY_AREA.
Proof.
  intros HI%reachable_Inv.
  destruct (dump_counts_is_Some (st w) (inv_nheads _ _ HI)) as [cs Hcs].
  exists cs. unfold buddy_dump. rewrite Hcs. simpl. eexists. split; [done|].
  split; [done|]. split.
  - unfold dump_counts in Hcs. apply length_mapM in Hcs.
    by rewrite <- Hcs, length_seqZ.
  - rewrite (held_bytes_pages _ _ HI).
    rewrite (dump_bytes_free (st w) (seqZ MIN_ORDER (MAX_ORDER - MIN_ORDER + 1)) cs);
      [|intros o ?%elem_of_seqZ; lia|done].
    fold (free_blocks (st w)).
    pose proof (pages_of_apart _ (Inv_blocks_apart _ _ HI)
                  (λ b, Inv_blocks_good _ _ b HI)) as H.
    unfold pages_of in *. rewrite sumZ_app in H. clia.
Qed.

Lemma dump_accounts_within_arena_witness :
  ∃ w, exec [Alloc 5000; Alloc 4096] fresh = Ran w ∧
    buddy_dump (st w) = Some ("1:4K 0:8K 1:16K 1:32K 1:64K 1:128K 1:256K 1:512K 0:1024K "
                              +:+ String (Ascii.ascii_of_nat 10) EmptyString) ∧
    ∃ cs, dump_counts (st w) = Some cs ∧
          dump_bytes cs + held_bytes (live w) ≤ MEMORY_AREA.
Proof.
  eexists. split; [vm_compute; reflexivity|].
  split; [vm_compute; reflexivity|].
  match goal with |- context [dump_counts (st ?w)] =>
    destruct (dump_accounts_within_arena w) as (cs & txt & Hcs & _ & _ & Hle)
  end.
  - exists [Alloc 5000; Alloc 4096]. vm_compute. reflexivity.
  - by exists cs.
Defined.

(** ** One turn of the loop of buddy_free *)

(** With the block at page [cur] in hand at order [i], the loop either
    links it on the list of order [i], its buddy not being there, or
    unlinks the buddy and goes on with the merged block at order [i + 1]. *)
Lemma free_loop_step s lv cur i :
  Inv s lv → in_hand s lv cur i →
  ((i < MAX_ORDER → ¬ on_list s (buddy_page cur i) i) ∧
   free_loop i (PAGE_TO_ADDR cur) cur s = free_insert i cur s) ∨
  (i < MAX_ORDER ∧ on_list s (buddy_page cur i) i ∧
   ∃ s1, list_del (buddy_page cur i) i s = Some s1 ∧
     free_loop i (PAGE_TO_ADDR cur) cur s =
       ('(s2, lg) ← free_loop (i + 1) (PAGE_TO_ADDR (Z.min cur (buddy_page cur i)))
                      (Z.min cur (buddy_page cur i)) s1;
        Some (s2, Merge (buddy_page cur i) i :: lg)) ∧
     Inv s1 lv ∧ in_hand s1 lv (Z.min cur (buddy_page cur i)) (i + 1)).
Proof.
  intros HI Hh. pose proof Hh as (Hg & Hf & Hlv).
  pose proof Hg as (Hi & Hc0 & Hc1 & Hal).
  pose proof (good_page _ _ Hg) as Hc.
  rewrite free_loop_eq.
  replace (i <=? MAX_ORDER) with true by (symmetry; apply Z.leb_le; lia).
  destruct (free_list_is_Some s i (inv_nheads _ _ HI) Hi) as [l Hl]. rewrite Hl. simpl.
  assert (∀ e, e ∈ l → ∃ p, page_at s e = Some p ∧ block_address p = PAGE_TO_ADDR e) as Hpl.
  { intros e He. assert (on_list s e i) as Hon by by exists l.
    destruct (inv_free _ _ HI _ _ Hon) as [Hge _].
    destruct (page_at_is_Some s e (inv_npages _ _ HI) (good_page _ _ Hge)) as [p Hp].
    exists p. split; [done|]. by apply (inv_pages _ _ HI). }
  destruct (list_scan_spec s (BUDDY_ADDR (PAGE_TO_ADDR cur) i) l Hpl None)
    as (r & -> & [(b & Hb & Hbt & ->)|[Hno Hr]]); simpl.
  - right. destruct (Hpl b Hb) as (pb & -> & Hpa). simpl.
    rewrite decide_False by (intros H; apply H; congruence).
    assert (i < MAX_ORDER) as Hlt.
    { destruct (decide (i = MAX_ORDER)) as [->|]; [|lia].
      assert (on_list s b MAX_ORDER) as Hon by by exists l.
      destruct (inv_free _ _ HI _ _ Hon) as [Hgb _].
      by destruct (BUDDY_ADDR_top cur b Hc (good_page _ _ Hgb)). }
    rewrite BUDDY_ADDR_page in Hbt by (done || lia).
    apply PAGE_TO_ADDR_inj in Hbt. subst b.
    destruct (good_merge cur i Hg Hlt) as (Hgb & Hgm & Hne & Hcmp & Hap).
    set (b := buddy_page cur i) in *. cbv zeta in Hgm, Hap.
    assert (on_list s b i) as Hon by by exists l.
    destruct (list_del_Inv s lv b i HI Hon)
      as (s1 & l0 & Hdel & HI1 & Hp1 & Hhb & _ & _ & _ & Hon1).
    rewrite Hdel. simpl.
    assert (in_hand s1 lv (Z.min cur b) (i + 1)) as Hhm.
    { split; [done|]. split.
      - intros k' o' Hk'. pose proof (on_list_range _ _ _ Hk') as Hr.
        apply Hon1 in Hk' as [Hk' Hd]. apply Hap; [lia|by apply Hf|].
        apply (inv_ff _ _ HI); [done..|]. destruct Hd; auto.
      - intros a o' Ha.
        destruct (inv_live _ _ HI _ _ Ha) as (_ & _ & (Hr & _) & _).
        apply Hap; [lia|by eapply Hlv|]. by eapply (inv_fl _ _ HI). }
    split; [done|]. split; [done|]. exists s1. split; [done|]. split; [|done].
    rewrite Hpa.
    assert (ADDR_TO_PAGE (PAGE_TO_ADDR b) = b) as ->
      by (apply ADDR_TO_PAGE_TO_ADDR; by eapply good_page).
    rewrite to_int_small by by eapply good_page.
    destruct (decide (PAGE_TO_ADDR cur > PAGE_TO_ADDR b)) as [Hgt|Hgt].
    + apply Hcmp in Hgt. by replace (Z.min cur b) with b by lia.
    + by replace (Z.min cur b) with cur by (rewrite Hcmp in Hgt; lia).
  - left. split.
    + intros Hlt (l' & Hl' & Hin). assert (l' = l) as -> by congruence.
      apply (Hno _ Hin). by rewrite BUDDY_ADDR_page by (done || lia).
    + destruct Hr as [->|(e & He & ->)]; [done|].
      destruct (Hpl e He) as (pe & -> & Hpe). simpl.
      rewrite decide_True; [done|]. rewrite Hpe. by apply Hno.
Qed.

Lemma free_loop_merges lv n :
  ∀ i cur s s' lg, Z.to_nat (MAX_ORDER + 1 - i) = n →
  Inv s lv → in_hand s lv cur i →
  free_loop i (PAGE_TO_ADDR cur) cur s = Some (s', lg) →
  ∀ b j, Merge b j ∈ lg → on_list s b j ∧ i ≤ j.
Proof.
  induction n as [|n IH]; intros i cur s s' lg Hn HI Hh.
  { destruct Hh as ((Hi & _) & _). lia. }
  destruct (free_loop_step s lv cur i HI Hh)
    as [[_ E]|(Hlt & Hon & s1 & Hdel & E & HI1 & Hh1)]; rewrite E.
  - destruct (free_insert_Inv s lv cur i HI Hh) as (si & -> & _).
    intros [= <- <-] b j [[=]|[]%elem_of_nil]%elem_of_cons.
  - destruct (free_loop (i + 1) _ _ s1) as [[s2 lg2]|] eqn:E2; [|done]. simpl.
    intros [= <- <-] b j [[= -> ->]|Hin]%elem_of_cons; [done|].
    destruct (IH (i + 1) _ s1 s2 lg2 ltac:(lia) HI1 Hh1 E2 b j Hin) as [Hon' Hj].
    split; [|lia].
    destruct (list_del_Inv s lv _ i HI Hon) as (s1' & l0 & Hdel' & _ & _ & _ & _ & _ & _ & Hon1).
    rewrite Hdel in Hdel'. injection Hdel' as <-. by apply Hon1 in Hon' as [? _].
Qed.

(** What [buddy_free] of a held block comes to when it returns. *)
Lemma buddy_free_held s lv a o s' lg :
  Inv s lv → held a lv = Some o → buddy_free a s = Some (s', lg) →
  ∃ k p, a = PAGE_TO_ADDR k ∧ 0 ≤ k < PAGE_NUM ∧ page_at s k = Some p ∧
    MIN_ORDER ≤ block_size p ≤ o ∧
    Inv s (give_back a lv) ∧ in_hand s (give_back a lv) k (block_size p) ∧
    free_loop (block_size p) (PAGE_TO_ADDR k) k s = Some (s', lg).
Proof.
  intros HI Hh.
  destruct (held_give_back a o lv (inv_ll _ _ HI) Hh) as (Hin & Hgb & Hap).
  destruct (inv_live _ _ HI _ _ Hin) as (k & -> & Hg & Hsz).
  pose proof (good_page _ _ Hg) as Hk.
  destruct (page_at_is_Some s k (inv_npages _ _ HI) Hk) as [p Hp].
  unfold buddy_free. rewrite (ADDR_TO_PAGE_TO_ADDR k Hk), (to_int_small k Hk), Hp. simpl.
  intros E. exists k, p. split; [done|]. split; [done|]. split; [done|].
  destruct (inv_pages _ _ HI _ _ Hp) as (_ & _ & [E1|[Hr Hal]]).
  { rewrite E1, free_loop_eq in E. done. }
  specialize (Hsz p Hp). split; [lia|].
  assert (Inv s (give_back (PAGE_TO_ADDR k) lv)) as HI'.
  { apply Inv_sublive with lv; [done| |done]. intros [a' o'] H. by apply Hgb. }
  split; [done|]. split; [|done].
  apply in_hand_shrink with o; [|lia]. split; [done|]. split.
  - intros k' o' Hon. apply apart_sym.
    rewrite <- (ADDR_TO_PAGE_TO_ADDR k Hk). by apply (inv_fl _ _ HI).
  - intros a' o' H. rewrite <- (ADDR_TO_PAGE_TO_ADDR k Hk). by apply Hgb.
Qed.

(** X9: in a run, a release merges only with blocks that were free: each
    block it unlinks was on the free list of the order of the merge when
    the call began, is the buddy at a higher or equal order than the one
    recorded, and shares no page with a block the caller holds. *)
Theorem release_merges_only_free_blocks w a o s' lg :
  reachable w → held a (live w) = Some o → buddy_free a (st w) = Some (s', lg) →
  ∀ b j, Merge b j ∈ lg →
    on_list (st w) b j ∧
    ∀ a' o', (a', o') ∈ live w → apart b j (ADDR_TO_PAGE a') o'.
Proof.
  intros HI%reachable_Inv Hh E b j Hin.
  destruct (buddy_free_held _ _ _ _ _ _ HI Hh E)
    as (k & p & -> & Hk & Hp & Hr & HI' & Hh' & E').
  destruct (free_loop_merges _ _ _ _ _ _ _ eq_refl HI' Hh' E' b j Hin) as [Hon _].
  split; [done|]. intros a' o' Ha. by apply (inv_fl _ _ HI).
Qed.

Lemma release_merges_only_free_blocks_witness :
  ∃ w s' lg, exec [Alloc 8192; Alloc 4096] fresh = Ran w ∧
    buddy_free 8192 (st w) = Some (s', lg) ∧ lg = [Merge 3 12; Release 2 13] ∧
    on_list (st w) 3 12 ∧
    ∀ a' o', (a', o') ∈ live w → apart 3 12 (ADDR_TO_PAGE a') o'.
Proof.
  eexists _, _, _. split; [vm_compute; reflexivity|].
  split; [vm_compute; reflexivity|]. split; [reflexivity|].
  match goal with |- on_list (st ?w) _ _ ∧ _ =>
    eapply (release_merges_only_free_blocks w 8192 12)
  end.
  - exists [Alloc 8192; Alloc 4096]. vm_compute. reflexivity.
  - vm_compute. reflexivity.
  - vm_compute. reflexivity.
  - apply list_elem_of_here.
Defined.

(** ** A split undone by the release of the block *)

Lemma free_insert_lists s lv k i :
  Inv s lv → in_hand s lv k i →
  ∃ s', free_insert i k s = Some (s', [Release k i]) ∧
    (∀ o, free_list s' o =
          if decide (o = i) then (λ l, k :: l) <$> free_list s o else free_list s o) ∧
    page_at s' k = Some (mk_page (-1) k (PAGE_TO_ADDR k)) ∧
    (∀ k', k' ≠ k → page_at s' k' = page_at s k').
Proof.
  intros HI Hh. pose proof Hh as (Hg & _).
  pose proof (good_page _ _ Hg) as Hk.
  destruct (set_block_size_Inv s lv k (-1) HI Hk)
    as (s1 & H1 & HI1 & Hfa1 & Hp1 & Hpo1); [by left| | |].
  { intros o Ho%on_list_range. clia. }
  { intros a o Ha _. destruct (inv_live _ _ HI _ _ Ha) as (_ & _ & (Hr & _) & _). clia. }
  assert (in_hand s1 lv k i) as Hh1.
  { apply in_hand_mono with s; [done|]. intros k' o' H. left.
    by apply (on_list_same_area s s1). }
  destruct (list_add_Inv s1 lv k i HI1 Hh1)
    as (s2 & l & H2 & HI2 & Hpg2 & Hl1 & Hl2 & Hlo2 & _).
  { intros q. rewrite Hp1. intros [= <-]. simpl. destruct Hg. clia. }
  exists s2. unfold free_insert. rewrite H1. simpl. rewrite H2. simpl.
  split; [done|].
  assert (∀ o, free_list s1 o = free_list s o) as Hsame.
  { intros o. unfold free_list. by rewrite Hfa1. }
  split; [|split].
  - intros o. destruct (decide (o = i)) as [->|Hne].
    + by rewrite Hl2, <- Hsame, Hl1.
    + by rewrite Hlo2, Hsame by done.
  - unfold page_at. rewrite Hpg2. apply Hp1.
  - intros k' Hk'. unfold page_at. rewrite Hpg2. by apply Hpo1.
Qed.

(** With the upper halves of the block at page [cur] at the head of the
    lists of the orders [t .. i - 1], the loop merges them back one by one
    and links the block on the list of order [i]. *)
Lemma free_loop_climb lv cur i n :
  ∀ t s, Z.to_nat (i - t) = n → MIN_ORDER ≤ t ≤ i →
  Inv s lv → in_hand s lv cur t → good cur i →
  (∀ o, t ≤ o < i → ∃ l, free_list s o = Some ((cur + block_pages o) :: l)) →
  (i < MAX_ORDER → ¬ on_list s (buddy_page cur i) i) →
  ∃ s' lg, free_loop t (PAGE_TO_ADDR cur) cur s = Some (s', lg) ∧
    steps is_merge lg = n ∧
    (∀ o, free_list s' o =
          if decide (o = i) then (λ l, cur :: l) <$> free_list s o
          else if decide (t ≤ o < i) then tail <$> free_list s o
          else free_list s o) ∧
    page_at s' cur = Some (mk_page (-1) cur (PAGE_TO_ADDR cur)) ∧
    (∀ k, k ≠ cur → page_at s' k = page_at s k).
Proof.
  induction n as [|n IH]; intros t s Hn Ht HI Hh Hgi Hheads Hnb.
  - assert (t = i) as -> by lia.
    destruct (free_loop_step s lv cur i HI Hh) as [[_ E]|(Hlt & Hon & _)];
      [|by destruct (Hnb Hlt)].
    destruct (free_insert_lists s lv cur i HI Hh) as (s' & Hins & Hl & Hp & Hpo).
    exists s', [Release cur i]. rewrite E. split; [done|]. split; [done|].
    split; [|done]. intros o. rewrite Hl.
    destruct (decide (o = i)); [done|]. by rewrite decide_False by lia.
  - assert (t < i) as Hlt by lia.
    assert (good cur (t + 1)) as Hg1 by (apply good_shrink with i; [done|lia]).
    destruct (good_upper_half cur (t + 1) Hg1 ltac:(lia)) as (Hb & _).
    replace (t + 1 - 1) with t in Hb by lia.
    pose proof (block_pages_pos t ltac:(lia)) as Hpos.
    destruct (Hheads t ltac:(lia)) as [l Hl].
    assert (on_list s (buddy_page cur t) t) as Hon.
    { exists ((cur + block_pages t) :: l). split; [done|]. rewrite Hb. by left. }
    destruct (free_loop_step s lv cur t HI Hh)
      as [[Hno _]|(_ & _ & s1 & Hdel & E & HI1 & Hh1)].
    { destruct Hgi as ((_ & ?) & _). destruct (Hno ltac:(lia) Hon). }
    destruct (list_del_Inv s lv _ t HI Hon)
      as (s1' & l0 & Hdel' & _ & Hpg1 & _ & Hl0 & Hl1 & Hlo1 & Hon1).
    rewrite Hdel in Hdel'. injection Hdel' as <-.
    assert (l0 = (cur + block_pages t) :: l) as -> by congruence.
    rewrite Hb in *. simpl in Hl1. rewrite decide_True in Hl1 by done.
    replace (Z.min cur (cur + block_pages t)) with cur in * by lia.
    destruct (IH (t + 1) s1) as (s' & lg & E' & Hst & Hl' & Hp' & Hpo');
      [lia|lia|done|done|done| | |].
    { intros o Ho. rewrite Hlo1 by lia. apply Hheads. lia. }
    { intros Hi [H _]%Hon1. by apply Hnb. }
    exists s', (Merge (cur + block_pages t) t :: lg).
    rewrite E, E'. simpl. split; [done|].
    split; [unfold steps in *; simpl; lia|]. split; [|split].
    + intros o. rewrite Hl'.
      destruct (decide (o = i)) as [->|Hne]; [by rewrite Hlo1 by lia|].
      destruct (decide (o = t)) as [->|Hne'].
      * rewrite decide_False, decide_True by lia. by rewrite Hl1, Hl.
      * rewrite Hlo1 by done.
        destruct (decide (t + 1 ≤ o < i)); [by rewrite decide_True by lia|].
        by rewrite decide_False by lia.
    + done.
    + intros k Hk. rewrite Hpo' by done. unfold page_at. by rewrite Hpg1.
Qed.

Lemma free_area_ext s s' lv lv' :
  Inv s lv → Inv s' lv' → (∀ o, free_list s' o = free_list s o) →
  free_area s' = free_area s.
Proof.
  intros HI HI' Hfl. apply list_eq. intros n.
  destruct (decide (n < Z.to_nat MIN_ORDER)%nat) as [Hlo|Hlo].
  { by rewrite (inv_low _ _ HI), (inv_low _ _ HI'). }
  destruct (decide (n ≤ Z.to_nat MAX_ORDER)%nat) as [Hhi|Hhi].
  - change (Z.to_nat MIN_ORDER) with 12%nat in Hlo.
    change (Z.to_nat MAX_ORDER) with 20%nat in Hhi.
    assert (MIN_ORDER ≤ Z.of_nat n ≤ MAX_ORDER) as Hr
      by (unfold MIN_ORDER, MAX_ORDER; lia).
    specialize (Hfl (Z.of_nat n)). unfold free_list in Hfl.
    rewrite !decide_True in Hfl by done. by rewrite Nat2Z.id in Hfl.
  - pose proof (inv_nheads _ _ HI) as H1. pose proof (inv_nheads _ _ HI') as H2.
    change (Z.to_nat MAX_ORDER) with 20%nat in Hhi.
    change (Z.to_nat (MAX_ORDER + 1)) with 21%nat in H1, H2.
    rewrite !lookup_ge_None_2; [done|lia..].
Qed.

(** X10: in a run, when [buddy_alloc] had to split a larger block, the
    release of the block it returned undoes the allocation: [buddy_free]
    returns, merges as many times as the allocation split, and leaves every
    free list as it was before the allocation; the page records are as
    before too, except that the first page of the block now records -1. *)
Theorem split_then_release_restores w size a s1 lg1 :
  reachable w → buddy_alloc size (st w) = Some (Some a, s1, lg1) →
  (0 < steps is_split lg1)%nat →
  ∃ s2 lg2, buddy_free a s1 = Some (s2, lg2) ∧
    free_area s2 = free_area (st w) ∧
    steps is_merge lg2 = steps is_split lg1 ∧
    (∀ k, k ≠ ADDR_TO_PAGE a → page_at s2 k = page_at (st w) k) ∧
    block_size <$> page_at s2 (ADDR_TO_PAGE a) = Some (-1).
Proof.
  intros Hw Ha Hst. pose proof (reachable_Inv w Hw) as HI.
  pose proof (order_exp_range size) as Ho.
  assert (no_free_buddies (st w)) as HM.
  { destruct Hw as [cs Hcs].
    apply (exec_no_free_buddies cs fresh w Inv_fresh); [|exact Hcs].
    intros k i (l & [->|[-> ->]]%fresh_free_list & Hk) Hi; [|lia].
    by apply elem_of_nil in Hk. }
  destruct (buddy_alloc_Inv (st w) (live w) size HI)
    as [[E _]|(i & e & l & s' & lg & Hi & Hall & Hfl & E & HI1 & Hh1 & Hl1 & Hlen &
               Hev & _ & _ & Hdiff & _)];
    rewrite E in Ha; [done|]. injection Ha as <- <- <-.
  assert (steps is_split (Take e i :: lg) = length lg) as Hsteps.
  { change (steps is_split (Take e i :: lg)) with (steps is_split lg).
    apply steps_split_all. intros ev Hin. destruct (Hev _ Hin) as (j & _ & ->). eauto. }
  rewrite Hsteps in *.
  assert (order_exp size < i) as Hlt by lia.
  destruct (Hdiff ltac:(lia)) as [Hpe Hpo].
  assert (on_list (st w) e i) as Hon by (exists (e :: l); split; [done|by left]).
  destruct (inv_free _ _ HI _ _ Hon) as [Hg _].
  pose proof (good_page _ _ Hg) as He.
  unfold buddy_alloc in E. cbv zeta in E.
  rewrite (alloc_scan_first _ (st w) i e l _ _ eq_refl Hi Hall Hfl) in E.
  assert (MIN_ORDER ≤ order_exp size < i) as Hoi by lia.
  pose proof (alloc_take_lists _ _ _ _ _ _ _ _ _ HI Hfl Hoi E) as Hlists.
  assert (Inv s' (live w)) as HI1'.
  { apply Inv_sublive with ((PAGE_TO_ADDR e, order_exp size) :: live w); [done| |apply HI].
    intros b Hb. by right. }
  destruct (free_loop_climb (live w) e i _ (order_exp size) s' eq_refl ltac:(lia) HI1' Hh1 Hg)
    as (s2 & lg2 & E2 & Hst2 & Hl2 & Hp2 & Hpo2).
  { intros o Hr. rewrite Hlists, decide_False, decide_True by lia.
    rewrite (Hall o) by lia. by eexists. }
  { intros Hi' (l' & Hl' & Hin). rewrite Hl1 in Hl'. injection Hl' as <-.
    apply (HM e i Hon Hi'). exists (e :: l). split; [done|by right]. }
  destruct (free_loop_Inv (live w) _ (order_exp size) e s' eq_refl HI1' Hh1)
    as (s2' & lg2' & E2' & HI2 & _).
  rewrite E2 in E2'. injection E2' as <- <-.
  exists s2, lg2. rewrite (ADDR_TO_PAGE_TO_ADDR e He).
  split; [|split; [|split; [|split]]].
  - unfold buddy_free. rewrite (ADDR_TO_PAGE_TO_ADDR e He), (to_int_small e He), Hpe.
    done.
  - apply (free_area_ext _ _ _ _ HI HI2). intros o. rewrite Hl2, Hlists.
    destruct (decide (o = i)) as [->|Hne]; [by rewrite Hfl|].
    destruct (decide (order_exp size ≤ o < i)); [|done].
    by destruct (free_list (st w) o).
  - lia.
  - intros k Hk. by rewrite Hpo2, Hpo.
  - by rewrite Hp2.
Qed.

Lemma split_then_release_restores_witness :
  ∃ w s1 lg1 s2 lg2,
    exec [Alloc 5000] fresh = Ran w ∧
    buddy_alloc 4096 (st w) = Some (Some 8192, s1, lg1) ∧
    buddy_free 8192 s1 = Some (s2, lg2) ∧
    free_area s2 = free_area (st w) ∧
    steps is_merge lg2 = steps is_split lg1.
Proof.
  eexists _, _, _.
  match goal with |- ∃ s2 lg2, exec ?cs _ = Ran ?w ∧ buddy_alloc ?sz _ = Some (_, ?s1, ?lg1) ∧ _ =>
    assert (exec cs fresh = Ran w) as Hrun by (vm_compute; reflexivity);
    assert (buddy_alloc sz (st w) = Some (Some 8192, s1, lg1)) as Ha
      by (vm_compute; reflexivity);
    destruct (split_then_release_restores w sz 8192 s1 lg1) as (s2 & lg2 & Hf & Hfa & Hst & _)
  end.
  - by exists [Alloc 5000].
  - exact Ha.
  - vm_compute. lia.
  - exists s2, lg2. exact (conj Hrun (conj Ha (conj Hf (conj Hfa Hst)))).
Defined.

(** ** Blocks that fit exactly *)

(** X12: in a run, an allocation that splits nothing writes no page
    record; and when the record of the block it returns holds -1, the
    release of that block faults. *)
Theorem exact_fit_records_nothing w size a s' lg :
  reachable w → buddy_alloc size (st w) = Some (Some a, s', lg) →
  steps is_split lg = 0%nat →
  g_pages s' = g_pages (st w) ∧
  (block_size <$> page_at (st w) (ADDR_TO_PAGE a) = Some (-1) →
   buddy_free a s' = None).
Proof.
  intros HI%reachable_Inv Ha Hst.
  pose proof (order_exp_range size) as Ho.
  destruct (buddy_alloc_Inv (st w) (live w) size HI)
    as [[E _]|(i & e & l & s1 & lg1 & Hi & _ & Hfl & E & _ & Hh & _ & Hlen &
               Hev & _ & Hsame & _)];
    rewrite E in Ha; [done|]. injection Ha as <- <- <-.
  assert (steps is_split (Take e i :: lg1) = length lg1) as Hsteps.
  { change (steps is_split (Take e i :: lg1)) with (steps is_split lg1).
    apply steps_split_all. intros ev Hin. destruct (Hev _ Hin) as (j & _ & ->). eauto. }
  rewrite Hsteps in Hst.
  assert (i = order_exp size) as -> by lia.
  specialize (Hsame eq_refl). split; [done|].
  assert (0 ≤ e < PAGE_NUM) as He by (eapply good_page; apply Hh).
  rewrite (ADDR_TO_PAGE_TO_ADDR e He). unfold buddy_free.
  rewrite (ADDR_TO_PAGE_TO_ADDR e He), (to_int_small e He).
  unfold page_at. rewrite Hsame.
  destruct (decide (0 ≤ e)); [|done].
  destruct (g_pages (st w) !! Z.to_nat e) as [p|]; [|done]. simpl.
  intros [= ->]. by rewrite free_loop_eq.
Qed.

Lemma exact_fit_records_nothing_witness :
  ∃ w s' lg, exec [Alloc 4096] fresh = Ran w ∧
    buddy_alloc 4096 (st w) = Some (Some 4096, s', lg) ∧
    g_pages s' = g_pages (st w) ∧ buddy_free 4096 s' = None.
Proof.
  eexists _, _, _.
  match goal with
  |- exec ?cs _ = Ran ?w ∧ buddy_alloc _ _ = Some (_, ?s', ?lg) ∧ _ =>
    assert (exec cs fresh = Ran w) as Hrun by (vm_compute; reflexivity);
    assert (buddy_alloc 4096 (st w) = Some (Some 4096, s', lg)) as Ha
      by (vm_compute; reflexivity);
    destruct (exact_fit_records_nothing w 4096 4096 s' lg) as [Hpg Hfault]
  end.
  - by exists [Alloc 4096].
  - exact Ha.
  - vm_compute. reflexivity.
  - refine (conj Hrun (conj Ha (conj Hpg (Hfault _)))). vm_compute. reflexivity.
Defined.

(** ** Free lists after a release *)

(** X13: in a run, the free lists never hold a block together with its
    buddy: for a free block of an order below [MAX_ORDER], the block at its
    buddy address is not on the free list of that order. *)
Theorem free_lists_hold_no_buddy_pair w k i :
  reachable w → on_list (st w) k i → i < MAX_ORDER →
  ¬ on_list (st w) (ADDR_TO_PAGE (BUDDY_ADDR (PAGE_TO_ADDR k) i)) i.
Proof.
  intros Hw Hon Hi. pose proof (reachable_Inv w Hw) as HI.
  destruct (inv_free _ _ HI _ _ Hon) as [Hg _].
  destruct (good_merge k i Hg Hi) as (Hgb & _).
  rewrite BUDDY_ADDR_page; [|by eapply good_page|destruct Hg; lia|apply Hg].
  rewrite ADDR_TO_PAGE_TO_ADDR by (by eapply good_page).
  by apply (run_no_free_buddies w Hw).
Qed.

Lemma free_lists_hold_no_buddy_pair_witness :
  ∃ w, exec [Alloc 8192; Alloc 4096; Free 8192] fresh = Ran w ∧
    on_list (st w) 2 13 ∧
    ¬ on_list (st w) (ADDR_TO_PAGE (BUDDY_ADDR (PAGE_TO_ADDR 2) 13)) 13.
Proof.
  eexists.
  match goal with |- exec ?cs _ = Ran ?w ∧ _ =>
    assert (exec cs fresh = Ran w) as Hrun by (vm_compute; reflexivity);
    assert (on_list (st w) 2 13) as Hon
      by (exists [2]; split; [vm_compute; reflexivity|apply list_elem_of_here])
  end.
  refine (conj Hrun (conj Hon (free_lists_hold_no_buddy_pair _ 2 13 _ Hon _))).
  - by exists [Alloc 8192; Alloc 4096; Free 8192].
  - unfold MAX_ORDER. lia.
Defined.

(** ** The first request after buddy_init *)

(** X14: after [buddy_init], a first request of any size gets the arena
    base, after one split for each order from [MAX_ORDER] down to the order
    of the request; [buddy_dump] then reports one free block of each order
    from the order of the request up to [MAX_ORDER - 1] and none of any
    other order. *)
Theorem first_request_splits_down size :
  ∃ s' lg, buddy_alloc size fresh_state = Some (Some 0, s', lg) ∧
    steps is_split lg = Z.to_nat (MAX_ORDER - order_exp size) ∧
    dump_counts s' =
      Some ((λ o, (if decide (order_exp size ≤ o < MAX_ORDER) then 1 else 0,
                   block_bytes o / 1024)) <$>
            seqZ MIN_ORDER (MAX_ORDER - MIN_ORDER + 1)).
Proof.
  unfold buddy_alloc. cbv zeta.
  pose proof (order_exp_range size) as Ho. revert Ho.
  generalize (order_exp size). intros o Ho.
  each_order Ho; eexists _, _;
    (split; [vm_compute; reflexivity|]);
    split; vm_compute; reflexivity.
Qed.
